(** * chatgpt_block: a shallow embedding of [ChatGPTBlock]

    The development follows [src/chatgpt_block/chatgpt_block.py].  A session
    object is a record, methods are state-passing functions, exceptions are
    the [Raise] case of [result], the tokenizer and the model service are
    parameters (they are external collaborators of the class). *)

From Stdlib Require Import ZArith Lia Ascii String.
From stdpp Require Import base list strings.

Local Open Scope Z_scope.

(** ** Data model *)

(** A message of the conversation: the dict [{"role": ..., "content": ...}]
    the class builds everywhere.  Python compares such dicts by value. *)
Record turn := Turn { role : string; content : string }.

Global Instance turn_eq_dec : EqDecision turn.
Proof. solve_decision. Defined.

(** Exceptions: the class an exception belongs to and its message
    ([str(e)]).  Every class below derives from Python's [Exception]. *)
Inductive exn_class :=
| KeyError | ValueError | IndexError
| OpenAIError | ChunkedEncodingError | Exception.

Global Instance exn_class_eq_dec : EqDecision exn_class.
Proof. solve_decision. Defined.

Record exn := Exn { exn_cls : exn_class; exn_msg : string }.

Global Instance exn_eq_dec : EqDecision exn.
Proof. solve_decision. Defined.

Inductive result (A : Type) :=
| Ok (a : A)
| Raise (e : exn).
Arguments Ok {A} a.
Arguments Raise {A} e.

(** The three shapes [get_number_of_tokens] accepts.  Its final [else]
    branch ([NotImplementedError]) needs a value of another type, which this
    type excludes. *)
Inductive token_input :=
| InDict (t : turn)
| InStr (s : string)
| InList (l : list turn).

(** [' '.join(xs)] *)
Definition join (xs : list string) : string := String.concat " " xs.

(** ** Token counting and history trimming *)

Section Trimming.

(** [self.encoder.encode]: the tokenizer, text to token ids. *)
Variable encode : string -> list nat.

Definition get_number_of_tokens (input : token_input) : nat :=
  match input with
  | InDict t => length (encode (content t))
  | InStr s => length (encode s)
  | InList l => length (encode (join (content <$> l)))
  end.

(** [sum(self.get_number_of_tokens(el) for el in trimmed_history)], the
    quantity the trimming loop accumulates and the method logs as
    [new_length]. *)
Definition new_length (l : list turn) : nat :=
  sum_list_with (fun el => get_number_of_tokens (InDict el)) l.

Definition is_user (t : turn) : Prop := role t = "user".

Global Instance is_user_dec t : Decision (is_user t).
Proof. unfold is_user. apply _. Defined.

(** The [for element in reversed(self.history)] loop.  [elements] is what
    is left of the reversed history; the other arguments are the loop's
    three variables.  The first branch of the conditional is the [break]. *)
Fixpoint trim_scan (total_tokens : Z) (elements : list turn)
    (trimmed_history : list turn) (tokens_count : Z)
    (user_element : option turn) : list turn * option turn :=
  match elements with
  | [] => (trimmed_history, user_element)
  | element :: rest =>
      let tokens_count :=
        tokens_count + Z.of_nat (get_number_of_tokens (InDict element)) in
      if total_tokens <? tokens_count then (trimmed_history, user_element)
      else
        let user_element :=
          if decide (role element = "user") then Some element
          else user_element in
        trim_scan total_tokens rest (element :: trimmed_history)
                  tokens_count user_element
  end.

(** The statement after the loop: [trimmed_history[0]] raises
    [IndexError] on the empty list, [list.index] raises [ValueError] when
    nothing compares equal, and [trimmed_history[index + 1:]] is [drop]. *)
Definition strand (trimmed_history : list turn)
    (user_element : option turn) : result (list turn) :=
  match user_element with
  | None => Ok trimmed_history
  | Some u =>
      match trimmed_history with
      | [] => Raise (Exn IndexError "list index out of range")
      | first :: _ =>
          if decide (u <> first) then
            match list_find (eq u) trimmed_history with
            | None => Raise (Exn ValueError "is not in list")
            | Some (index, _) => Ok (drop (S index) trimmed_history)
            end
          else Ok trimmed_history
      end
  end.

(** The body of [get_trimmed_history] for a history [H] and a limit
    [L = self.tokens_available - self.max_output_length]. *)
Definition trim (H : list turn) (L : Z) : result (list turn) :=
  let '(trimmed_history, user_element) :=
    trim_scan L (reverse H) [] 0 None in
  strand trimmed_history user_element.

End Trimming.

(** ** The degraded-message iterator *)

(** Text is kept as the program's [str] values encoded in UTF-8: a [string]
    is the byte sequence of the code points.  Concatenation, emptiness and
    equality of [str] values are those of their encodings. *)
Definition bytes (l : list N) : string :=
  string_of_list_ascii (ascii_of_N <$> l).

(** The code points on which [str.split()] separates, the ones [str.isspace]
    accepts, each in its UTF-8 encoding: U+0009 to U+000D, U+001C to U+001F,
    U+0020, U+0085, U+00A0, U+1680, U+2000 to U+200A, U+2028, U+2029, U+202F,
    U+205F and U+3000. *)
Definition white_space : list string :=
  bytes <$>
    [[9]; [10]; [11]; [12]; [13]; [28]; [29]; [30]; [31]; [32];
     [194; 133]; [194; 160]; [225; 154; 128];
     [226; 128; 128]; [226; 128; 129]; [226; 128; 130]; [226; 128; 131];
     [226; 128; 132]; [226; 128; 133]; [226; 128; 134]; [226; 128; 135];
     [226; 128; 136]; [226; 128; 137]; [226; 128; 138];
     [226; 128; 168]; [226; 128; 169]; [226; 128; 175];
     [226; 129; 159]; [227; 128; 128]]%N.

(** [s] begins with the bytes of [w]. *)
Fixpoint starts_with (w s : string) : bool :=
  match w with
  | EmptyString => true
  | String a w' =>
      match s with
      | EmptyString => false
      | String b s' => if Ascii.eqb a b then starts_with w' s' else false
      end
  end.

(** The number of bytes of the white-space code point [s] begins with, [0]
    when it begins with none. *)
Definition space_len (s : string) : nat :=
  match list_find (fun w => starts_with w s = true) white_space with
  | Some (_, w) => String.length w
  | None => 0%nat
  end.

(** [str.split()] without arguments: maximal runs of code points that are
    not white space.  [word] is the run being read; [skip] counts the bytes
    still to pass of a white-space code point that was recognised at its
    first byte. *)
Fixpoint split_go (skip : nat) (word : string) (s : string) : list string :=
  match s with
  | EmptyString => if decide (word = "") then [] else [word]
  | String c s' =>
      match skip with
      | S k => split_go k word s'
      | O =>
          match space_len s with
          | O => split_go 0 (word +:+ String c "") s'
          | S k =>
              if decide (word = "") then split_go k "" s'
              else word :: split_go k "" s'
          end
      end
  end.

Definition split (s : string) : list string := split_go 0 "" s.

(** [SimpleStringIterator(string)]: the fragments of the generator
    [(f'{tok} ' for tok in string.split())]. *)
Definition SimpleStringIterator (s : string) : list string :=
  (fun tok => tok +:+ " ") <$> split s.

(** ** The session object *)

(** The fields of [self].  [temperature] is a float that is only forwarded to
    the service and is left out.  [on_error_calls] records the effect of the
    [on_error] hook: how many times it has run. *)
Record session := Session {
  stream : bool;
  model : string;
  tokens_available : Z;
  max_output_length : Z;
  system_prompt : turn;
  initial_examples : list turn;
  history : list turn;
  encoder : string -> list nat;
  preprocessor : string -> string;
  _answer : string;
  raise_on_error : bool;
  on_error_calls : nat
}.

Definition set_history (h : list turn) (s : session) : session :=
  Session (stream s) (model s) (tokens_available s) (max_output_length s)
          (system_prompt s) (initial_examples s) h (encoder s)
          (preprocessor s) (_answer s) (raise_on_error s) (on_error_calls s).

Definition set_answer (a : string) (s : session) : session :=
  Session (stream s) (model s) (tokens_available s) (max_output_length s)
          (system_prompt s) (initial_examples s) (history s) (encoder s)
          (preprocessor s) a (raise_on_error s) (on_error_calls s).

(** [self.on_error()] *)
Definition on_error (s : session) : session :=
  Session (stream s) (model s) (tokens_available s) (max_output_length s)
          (system_prompt s) (initial_examples s) (history s) (encoder s)
          (preprocessor s) (_answer s) (raise_on_error s)
          (S (on_error_calls s)).

(** One element of [choices] of a response object or of a streamed chunk.
    [delta] and [message] are [None] when the key is absent, [Some None] when
    the sub-dict has no ["content"]. *)
Record choice := Choice {
  finish_reason : option string;
  delta : option (option string);
  message : option (option string)
}.

(** The generator the service returns in streaming mode, as the caller of
    [next] sees it: it ends, yields a chunk, or raises. *)
Inductive upstream :=
| StopIteration
| Yield (chunk : choice) (rest : upstream)
| Throw (e : exn).

(** What [call_raw_api] can hand to [api_answer_wrapper]. *)
Inductive raw_response :=
| RawSimpleStringIterator (fragments : list string)
| RawGenerator (u : upstream)
| RawOpenAIObject (c : choice)
| RawStr (x : string).

(** What [api_answer_wrapper] and [__call__] return: the error iterator, the
    (not yet started) generator of [generator_wrapper], or the value of
    [process_response]. *)
Inductive response :=
| RSimpleStringIterator (fragments : list string)
| RGenerator (u : upstream)
| RValue (x : option string).

Record request := Request {
  req_model : string;
  req_stream : bool;
  req_messages : list turn
}.

Definition max_tokens_by_model : list (string * Z) :=
  [("gpt-3.5-turbo", 4097); ("gpt-3.5-turbo-0301", 4097);
   ("gpt-4", 8192); ("gpt-4-0314", 8192)].

(** [max_tokens_by_model[model]] after [model in models]. *)
Definition capacity (model : string) : option Z :=
  snd <$> (snd <$> list_find (fun kv => fst kv = model) max_tokens_by_model).

Section Session.

(** [tiktoken.encoding_for_model]; [None] is its [KeyError]. *)
Variable encoding_for_model : string -> option (string -> list nat).

Definition __init__ (system_prompt : string)
    (examples : list (string * string)) (model : string)
    (max_output_length : Z) (stream : bool)
    (preprocessor : string -> string) (raise_on_errors : bool)
    : result session :=
  match capacity model with
  | None => Raise (Exn KeyError (model +:+ " must be in models"))
  | Some tokens_available =>
      if tokens_available <? max_output_length then
        Raise (Exn ValueError
                   "max_output_length must be less than max_tokens given by a model")
      else
        let initial_examples :=
          mjoin ((fun ua => [Turn "user" (fst ua);
                              Turn "assistant" (snd ua)]) <$> examples) in
        let encoder :=
          match encoding_for_model model with
          | Some e => Some e
          | None => encoding_for_model "gpt-3.5-turbo"
          end in
        match encoder with
        | None => Raise (Exn KeyError "gpt-3.5-turbo")
        | Some encoder =>
            let system_prompt_len :=
              get_number_of_tokens encoder (InStr system_prompt) in
            let examples_len :=
              get_number_of_tokens encoder
                (InStr (join (content <$> initial_examples))) in
            Ok {| stream := stream;
                  model := model;
                  tokens_available :=
                    tokens_available
                    - Z.of_nat (system_prompt_len + examples_len);
                  max_output_length := max_output_length;
                  system_prompt := Turn "system" system_prompt;
                  initial_examples := initial_examples;
                  history := [];
                  encoder := encoder;
                  preprocessor := preprocessor;
                  _answer := "";
                  raise_on_error := raise_on_errors;
                  on_error_calls := 0 |}
        end
  end.

End Session.

(** The [history_length] and [answer] properties. *)
Definition history_length (s : session) : nat :=
  get_number_of_tokens (encoder s) (InList (history s)).

Definition answer (s : session) : string := _answer s.

Definition get_trimmed_history (s : session) : result (list turn) :=
  let total_tokens := tokens_available s - max_output_length s in
  trim (encoder s) (history s) total_tokens.

Section Exchange.

(** [openai.ChatCompletion.create]: what the service does with a request,
    a returned object or a raised exception. *)
Variable create : request -> result raw_response.

Definition call_raw_api (s : session) : result raw_response * session :=
  match create {| req_model := model s;
                  req_stream := stream s;
                  req_messages :=
                    system_prompt s :: initial_examples s ++ history s |}
  with
  | Ok openai_api_response => (Ok openai_api_response, s)
  | Raise e =>
      let s := on_error s in
      if raise_on_error s then (Raise e, s)
      else
        let errmsg :=
          if decide (exn_cls e = OpenAIError)
          then "OpenAI internal error. " +:+ exn_msg e
          else "Internal error. " +:+ exn_msg e in
        (Ok (if stream s
             then RawSimpleStringIterator (SimpleStringIterator errmsg)
             else RawStr errmsg), s)
  end.

End Exchange.

Definition process_response (chunk : choice) (s : session)
    : result (option string) * session :=
  match finish_reason chunk with
  | None =>
      match delta chunk with
      | None => (Raise (Exn KeyError "delta"), s)
      | Some d =>
          let content := match d with Some c => c | None => "" end in
          (Ok (Some content), set_answer (_answer s +:+ content) s)
      end
  | Some reason =>
      if decide (reason = "stop" \/ reason = "length") then
        let '(final_answer, s) :=
          match stream s, message chunk with
          | false, Some (Some c) => (Some c, set_answer c s)
          | _, _ => (None, s)
          end in
        let s := set_history (history s ++ [Turn "assistant" (_answer s)]) s in
        (Ok final_answer, set_answer "" s)
      else (Raise (Exn Exception reason), s)
  end.

(** The [except requests.exceptions.ChunkedEncodingError] clause of
    [generator_wrapper], and the propagation of every other exception. *)
Definition generator_except (e : exn) (s : session)
    : list string * option exn * session :=
  if decide (exn_cls e = ChunkedEncodingError) then
    ((fun chunk => chunk +:+ " ") <$> split "openAI error. Please try again.",
     None, on_error s)
  else ([], Some e, s).

(** [generator_wrapper] run until it is exhausted: the fragments it yields,
    the exception that reaches the consumer (if any), the session after. *)
Fixpoint generator_wrapper (openai_api_response : upstream) (s : session)
    : list string * option exn * session :=
  match openai_api_response with
  | StopIteration => ([], None, s)
  | Yield chunk rest =>
      match process_response chunk s with
      | (Ok piece, s) =>
          let '(yielded, e, s) := generator_wrapper rest s in
          (match piece with
           | Some p => if decide (p = "") then yielded else p :: yielded
           | None => yielded
           end, e, s)
      | (Raise e, s) => generator_except e s
      end
  | Throw e => generator_except e s
  end.

Section Call.

Variable create : request -> result raw_response.

Definition api_answer_wrapper (s : session) : result response * session :=
  match call_raw_api create s with
  | (Raise e, s) => (Raise e, s)
  | (Ok openai_api_response, s) =>
      match openai_api_response with
      | RawSimpleStringIterator fragments =>
          (Ok (RSimpleStringIterator fragments), s)
      | RawGenerator u => (Ok (RGenerator u), s)
      | RawOpenAIObject c =>
          match process_response c s with
          | (Ok x, s) => (Ok (RValue x), s)
          | (Raise e, s) => (Raise e, s)
          end
      | RawStr _ =>
          (Raise (Exn ValueError "openAI response has an unknown type: <class 'str'>"), s)
      end
  end.

Definition __call__ (input : string) (s : session)
    : result response * session :=
  let request := preprocessor s input in
  let s := set_history (history s ++ [Turn "user" request]) s in
  match get_trimmed_history s with
  | Raise e => (Raise e, s)
  | Ok trimmed => api_answer_wrapper (set_history trimmed s)
  end.

End Call.

Definition reset (s : session) : session :=
  set_answer "" (set_history [] s).

(** The caller iterating over what [__call__] returned until exhaustion. *)
Definition consume (r : response) (s : session)
    : list string * option exn * session :=
  match r with
  | RSimpleStringIterator fragments => (fragments, None, s)
  | RGenerator u => generator_wrapper u s
  | RValue _ => ([], None, s)
  end.

(** ** Auxiliary notions used in the statements *)

(** The earliest turn with role ["user"] of a list, in list order. *)
Definition first_user (l : list turn) : option turn :=
  snd <$> list_find is_user l.

(** The value of the loop variable [user_element] after the loop has
    prepended the turns of [l] (scanned from the right), starting from [u]. *)
Definition tracked (l : list turn) (u : option turn) : option turn :=
  match first_user l with
  | Some x => Some x
  | None => u
  end.

(** A streamed chunk carrying a content delta, and a terminal chunk. *)
Definition delta_chunk (c : string) : choice :=
  {| finish_reason := None; delta := Some (Some c); message := None |}.

Definition terminal_chunk (reason : string) : choice :=
  {| finish_reason := Some reason; delta := Some None; message := None |}.

(** A tokenizer to evaluate the model on concrete inputs: one token per
    character. *)
Definition char_encode (s : string) : list nat :=
  (fun c => nat_of_ascii c) <$> String.list_ascii_of_string s.

(** A session as the constructor leaves it, for evaluating the model:
    model [gpt-4], system prompt ["sys"], no examples, reservation [400]. *)
Definition example_session (stream raise_on_errors : bool) : session :=
  {| stream := stream; model := "gpt-4";
     tokens_available := 8189; max_output_length := 400;
     system_prompt := Turn "system" "sys"; initial_examples := [];
     history := []; encoder := char_encode; preprocessor := fun text => text;
     _answer := ""; raise_on_error := raise_on_errors; on_error_calls := 0 |}.

(** Concrete inputs: a service that always fails with [e], a service that
    always answers with the generator [u], the stream of three deltas closed
    by [stop], a stream that breaks after its first delta, a short complete
    stream, and a history that begins with an assistant turn. *)
Definition failing_service (e : exn) : request -> result raw_response :=
  fun _ => Raise e.

Definition streaming_service (u : upstream) : request -> result raw_response :=
  fun _ => Ok (RawGenerator u).

Definition abc_upstream (stop : choice) : upstream :=
  Yield (delta_chunk "A") (Yield (delta_chunk "B")
    (Yield (delta_chunk "C") (Yield stop StopIteration))).

Definition broken_upstream : upstream :=
  Yield (delta_chunk "A") (Throw (Exn ChunkedEncodingError "broken")).

Definition short_upstream : upstream :=
  Yield (delta_chunk "B") (Yield (terminal_chunk "stop") StopIteration).

Definition stranded_history : list turn :=
  [Turn "assistant" "a1"; Turn "user" "u2"; Turn "assistant" "a2";
   Turn "user" "u3"; Turn "assistant" "a3"].

(** An upstream generator is consumed through its terminal marker: its last
    chunk carries [stop] or [length] and nothing follows it. *)
Fixpoint completes (u : upstream) : Prop :=
  match u with
  | Yield c StopIteration =>
      finish_reason c = Some "stop" \/ finish_reason c = Some "length"
  | Yield _ rest => completes rest
  | _ => False
  end.

(** What the statement after the loop returns on a list [T] whose earliest
    user turn is the tracked one: [T] when it has no user turn or begins with
    one, otherwise what follows its earliest user turn. *)
Definition stranded (T : list turn) : list turn :=
  match list_find is_user T with
  | Some (S i, _) => drop (S (S i)) T
  | _ => T
  end.

(** The chunks of a stream that carries the deltas [ds] and goes on as
    [tail]. *)
Definition deltas_then (ds : list string) (tail : upstream) : upstream :=
  foldr (fun d u => Yield (delta_chunk d) u) tail ds.

(** The deltas the wrapper passes on: the non-empty ones. *)
Definition passed_on (ds : list string) : list string :=
  filter (fun d => d <> "") ds.

(** [''.join(ds)] *)
Definition concat_all (ds : list string) : string := String.concat "" ds.

(** The words of the message the wrapper substitutes for a broken stream. *)
Definition degraded_words : list string :=
  ["openAI "; "error. "; "Please "; "try "; "again. "].

(** Two sessions agree on everything the constructor fixes. *)
Definition same_config (s s' : session) : Prop :=
  stream s' = stream s /\ model s' = model s /\
  tokens_available s' = tokens_available s /\
  max_output_length s' = max_output_length s /\
  system_prompt s' = system_prompt s /\
  initial_examples s' = initial_examples s /\
  encoder s' = encoder s /\ preprocessor s' = preprocessor s /\
  raise_on_error s' = raise_on_error s.

(** A turn of a conversation: a user or an assistant message. *)
Definition chat_turn (t : turn) : Prop :=
  role t = "user" \/ role t = "assistant".

(** No white-space code point begins inside [word] when [s] follows it. *)
Fixpoint clear_before (s : string) (word : string) : Prop :=
  match word with
  | EmptyString => True
  | String _ word' =>
      space_len (word +:+ s) = 0%nat /\ clear_before s word'
  end.

(** A string without white space: no white-space code point begins at any
    of its positions. *)
Definition spaceless (w : string) : Prop := clear_before "" w.

(** The request [call_raw_api] sends for a session. *)
Definition request_of (s : session) : request :=
  {| req_model := model s;
     req_stream := stream s;
     req_messages := system_prompt s :: initial_examples s ++ history s |}.

(** The models the constructor accepts. *)
Definition models : list string := fst <$> max_tokens_by_model.

(** The session after one exchange: a call, then the caller iterating over
    what the call returned until it is exhausted. *)
Definition after_exchange (create : request -> result raw_response)
    (input : string) (s : session) : session :=
  match __call__ create input s with
  | (Ok r, s1) => (consume r s1).2
  | (Raise _, s1) => s1
  end.

(** A session as the constructor leaves it when it is given two example
    exchanges. *)
Definition tutored_session : session :=
  {| stream := false; model := "gpt-4";
     tokens_available := 8178; max_output_length := 400;
     system_prompt := Turn "system" "sys";
     initial_examples :=
       [Turn "user" "hi"; Turn "assistant" "yo";
        Turn "user" "ab"; Turn "assistant" "cd"];
     history := []; encoder := char_encode; preprocessor := fun text => text;
     _answer := ""; raise_on_error := false; on_error_calls := 0 |}.

(** ** Properties of the trimming loop *)

Section TrimmingFacts.

Variable encode : string -> list nat.

Local Abbreviation tok el := (get_number_of_tokens encode (InDict el)).

Lemma new_length_app l k :
  new_length encode (l ++ k) = (new_length encode l + new_length encode k)%nat.
Proof. apply sum_list_with_app. Qed.

Lemma new_length_cons x l :
  new_length encode (x :: l) = (tok x + new_length encode l)%nat.
Proof. reflexivity. Qed.

Lemma new_length_suffix l k :
  l `suffix_of` k -> (new_length encode l <= new_length encode k)%nat.
Proof. intros [p ->]. rewrite new_length_app. lia. Qed.

Lemma first_user_nil : first_user [] = None.
Proof. reflexivity. Qed.

Lemma first_user_cons x l :
  first_user (x :: l) = if decide (role x = "user") then Some x else first_user l.
Proof.
  unfold first_user. cbn. unfold is_user at 1.
  destruct (decide (role x = "user")); [done|].
  by destruct (list_find is_user l) as [[i y]|].
Qed.

Lemma first_user_is_user l u : first_user l = Some u -> role u = "user" /\ u ∈ l.
Proof.
  induction l as [|x l IH]; [done|]. rewrite first_user_cons.
  destruct (decide (role x = "user")).
  - intros [= <-]. split; [done | left].
  - intros Hl. destruct (IH Hl). split; [done | by right].
Qed.

Lemma tracked_snoc l x u :
  tracked (l ++ [x]) u =
  tracked l (if decide (role x = "user") then Some x else u).
Proof.
  unfold tracked. induction l as [|y l IH]; cbn [app].
  - rewrite first_user_cons, first_user_nil.
    by destruct (decide (role x = "user")).
  - rewrite !first_user_cons. by destruct (decide (role y = "user")).
Qed.

(** The loop prepends a prefix [taken] of what it is given and stops; the
    running total never exceeds the limit once something was taken. *)
Lemma trim_scan_spec L elements trimmed c u :
  exists taken left,
    elements = taken ++ left /\
    trim_scan encode L elements trimmed c u
      = (reverse taken ++ trimmed, tracked (reverse taken) u) /\
    (taken <> [] -> c + Z.of_nat (new_length encode taken) <= L).
Proof.
  revert trimmed c u.
  induction elements as [|el rest IH]; intros trimmed c u.
  - exists [], []. by split_and!.
  - cbn [trim_scan].
    destruct (Z.ltb_spec L (c + Z.of_nat (tok el))) as [Hlt|Hle].
    + exists [], (el :: rest). by split_and!.
    + destruct (IH (el :: trimmed) (c + Z.of_nat (tok el))
                  (if decide (role el = "user") then Some el else u))
        as (taken & left & -> & Heq & Hsum).
      exists (el :: taken), left. split_and!; [done | |].
      * rewrite Heq, reverse_cons, tracked_snoc. by rewrite <- app_assoc.
      * intros _. rewrite new_length_cons.
        destruct taken as [|t taken].
        { change (new_length encode []) with 0%nat. lia. }
        specialize (Hsum ltac:(done)). lia.
Qed.

(** When everything fits the loop takes the whole list. *)
Lemma trim_scan_all L l trimmed c u :
  c + Z.of_nat (new_length encode l) <= L ->
  trim_scan encode L (reverse l) trimmed c u = (l ++ trimmed, tracked l u).
Proof.
  revert trimmed c u. induction l as [|x l IH] using rev_ind;
    intros trimmed c u Hfit.
  - reflexivity.
  - rewrite reverse_snoc. cbn [trim_scan].
    rewrite new_length_app, new_length_cons in Hfit.
    destruct (Z.ltb_spec L (c + Z.of_nat (tok x))) as [Hlt|Hle]; [lia|].
    rewrite IH by lia. by rewrite tracked_snoc, <- app_assoc.
Qed.

(** The statement after the loop never raises on what the loop produces,
    returns a suffix, and returns its argument unchanged exactly when there
    is no user turn or the first turn is a user turn. *)
Lemma strand_first_user T :
  exists T',
    strand T (first_user T) = Ok T' /\
    T' `suffix_of` T /\
    (T' = T <-> first_user T = None \/
                exists u rest, T = u :: rest /\ role u = "user").
Proof.
  unfold strand. destruct (first_user T) as [u|] eqn:Hu.
  - destruct (first_user_is_user _ _ Hu) as [Hrole Hin].
    destruct T as [|first rest]; [by apply elem_of_nil in Hin|].
    destruct (decide (u <> first)) as [Hne|Heq].
    + destruct (list_find_elem_of (eq u) _ _ Hin eq_refl) as [[i y] Hfind].
      rewrite Hfind. eexists. split_and!; [done | apply suffix_drop |].
      split.
      * intros Hdrop. apply (f_equal length) in Hdrop.
        rewrite length_drop in Hdrop. cbn in Hdrop. lia.
      * intros [|(u' & rest' & [= <- <-] & Hrole')]; [done|].
        rewrite first_user_cons, decide_True in Hu by done. naive_solver.
    + apply dec_stable in Heq as <-. eexists. split_and!; [done..|].
      split; [|done]. intros _. right. by exists u, rest.
  - eexists. split_and!; [done..|]. by split; [left|].
Qed.

Lemma trim_spec H L :
  exists T0,
    T0 `suffix_of` H /\
    (T0 <> [] -> Z.of_nat (new_length encode T0) <= L) /\
    trim encode H L = strand T0 (first_user T0).
Proof.
  unfold trim.
  destruct (trim_scan_spec L (reverse H) [] 0 None)
    as (taken & left & Hrev & -> & Hsum).
  exists (reverse taken). rewrite app_nil_r. split_and!.
  - exists (reverse left).
    by rewrite <- reverse_app, <- Hrev, reverse_involutive.
  - intros Hne. unfold new_length in *. rewrite sum_list_with_reverse.
    apply Hsum. intros ->. done.
  - unfold tracked. by destruct (first_user (reverse taken)).
Qed.

(** [trim] always returns, and what it returns fits. *)
Lemma trim_total H L :
  exists T,
    trim encode H L = Ok T /\
    T `suffix_of` H /\
    (T <> [] -> Z.of_nat (new_length encode T) <= L).
Proof.
  destruct (trim_spec H L) as (T0 & Hsuf & Hfit & ->).
  destruct (strand_first_user T0) as (T & -> & HT & _).
  exists T. split_and!; [done | by etrans |].
  intros Hne. pose proof (new_length_suffix _ _ HT).
  assert (T0 <> []) by (intros ->; by apply suffix_nil_inv in HT).
  specialize (Hfit ltac:(done)). lia.
Qed.

(** Running [trim] on a list that fits: only the statement after the loop
    acts. *)
Lemma trim_fitting T L :
  (T <> [] -> Z.of_nat (new_length encode T) <= L) ->
  trim encode T L = strand T (first_user T).
Proof.
  intros Hfit. unfold trim. destruct T as [|x T]; [done|].
  rewrite trim_scan_all by (specialize (Hfit ltac:(done)); lia).
  rewrite app_nil_r. unfold tracked.
  by destruct (first_user (x :: T)).
Qed.

End TrimmingFacts.

(** The statement after the loop, on a list and its earliest user turn,
    returns [stranded] of the list. *)
Lemma strand_stranded T : strand T (first_user T) = Ok (stranded T).
Proof.
  unfold strand, first_user, stranded.
  destruct (list_find is_user T) as [[i u]|] eqn:Hfind; [|done].
  apply list_find_Some in Hfind as (Hi & Hu & Hbefore). cbn.
  destruct T as [|first rest]; [done|]. destruct i as [|i].
  - injection Hi as ->. by rewrite decide_False by (intros ?; done).
  - assert (u <> first) as Hne.
    { intros <-. apply (Hbefore 0%nat u); [done | lia | done]. }
    rewrite decide_True by done.
    assert (list_find (eq u) (first :: rest) = Some (S i, u)) as ->; [|done].
    apply list_find_Some. split_and!; [done..|].
    intros j y Hj Hlt <-. by apply (Hbefore j u).
Qed.

(** On a list that begins with turns that are not user turns, followed by a
    user turn, [stranded] keeps what follows that user turn. *)
Lemma stranded_after pre u rest :
  pre <> [] ->
  Forall (fun t => role t <> "user") pre ->
  role u = "user" ->
  stranded (pre ++ u :: rest) = rest.
Proof.
  intros Hne Hpre Hu. unfold stranded.
  assert (list_find is_user (pre ++ u :: rest) = Some (length pre, u)) as ->.
  { apply list_find_Some. split_and!.
    - by rewrite lookup_app_r, Nat.sub_diag.
    - done.
    - intros j y Hj Hlt. rewrite lookup_app_l in Hj by done.
      rewrite Forall_lookup in Hpre. by eapply Hpre. }
  destruct pre as [|p pre]; [done|]. cbn [length].
  change (drop (S (S (length pre))) ((p :: pre) ++ u :: rest))
    with (drop (S (length pre)) (pre ++ u :: rest)).
  rewrite cons_middle, app_assoc.
  apply drop_app_length'. rewrite length_app. cbn. lia.
Qed.

(** ** Claims about trimming *)

(** C6. For every history [H] and limit [L], [trim H L] returns a contiguous
    suffix of [H]: [H] is some list of dropped turns followed by the result,
    in the original order and without gaps.  For the empty history it returns
    the empty sequence. *)
Theorem trim_contiguous_suffix encode H L :
  (exists T, trim encode H L = Ok T /\ T `suffix_of` H) /\
  trim encode [] L = Ok [].
Proof.
  split; [|done].
  destruct (trim_total encode H L) as (T & HT & Hsuf & _). by exists T.
Qed.

(** C5, as stated, fails when the limit is negative: with the empty history
    and limit [-1] the result is empty and counts [0] tokens, under the
    per-turn sum and under the count of the joined contents alike. *)
Lemma trim_exceeds_negative_limit :
  exists T,
    trim char_encode [] (-1) = Ok T /\
    ~ (Z.of_nat (new_length char_encode T) <= -1) /\
    ~ (Z.of_nat (get_number_of_tokens char_encode (InList T)) <= -1).
Proof. exists []. split_and!; [done | cbn; lia | cbn; lia]. Qed.

(** C5, amended.  For every history [H] and limit [L], [trim H L] is empty
    or the token counts of its turns add up to at most [L]; so the total is
    at most [max 0 L], which is [L] for every non-negative limit. *)
Theorem trim_fits encode H L :
  exists T,
    trim encode H L = Ok T /\
    (T = [] \/ Z.of_nat (new_length encode T) <= L) /\
    Z.of_nat (new_length encode T) <= Z.max 0 L.
Proof.
  destruct (trim_total encode H L) as (T & HT & _ & Hfit).
  exists T. split; [done|]. destruct T as [|x T].
  - split; [by left | cbn; lia].
  - specialize (Hfit ltac:(done)). split; [by right | lia].
Qed.

(** The bound of C5 is about the sum the loop accumulates.  The count
    [get_number_of_tokens] gives for a whole list encodes the contents joined
    by spaces, and a tokenizer may charge for the separators. *)
Remark joined_count_may_exceed :
  trim char_encode [Turn "user" "ab"; Turn "assistant" "cd"] 4
    = Ok [Turn "user" "ab"; Turn "assistant" "cd"] /\
  new_length char_encode [Turn "user" "ab"; Turn "assistant" "cd"] = 4%nat /\
  get_number_of_tokens char_encode
    (InList [Turn "user" "ab"; Turn "assistant" "cd"]) = 5%nat.
Proof. by split_and!. Qed.

(** C2, as stated, fails: a history that starts with an assistant turn and
    holds two later user turns loses a leading exchange on each run. *)
Lemma trim_not_idempotent :
  trim char_encode stranded_history 100
    = Ok [Turn "assistant" "a2"; Turn "user" "u3"; Turn "assistant" "a3"] /\
  trim char_encode
       [Turn "assistant" "a2"; Turn "user" "u3"; Turn "assistant" "a3"] 100
    = Ok [Turn "assistant" "a3"] /\
  ~ (forall T, trim char_encode stranded_history 100 = Ok T ->
               trim char_encode T 100 = Ok T).
Proof.
  split_and!; [done | done |].
  intros Hidem. specialize (Hidem _ eq_refl). discriminate Hidem.
Qed.

(** C2, amended.  For every history [H] and limit [L], running [trim] on its
    own output returns a suffix of that output, and returns the output itself
    exactly when the output holds no user turn or begins with a user turn.
    In particular a user turn at the front of [trim H L] is never advanced
    past by a second run.  The second run returns [stranded] of the output:
    when the output begins with turns that are not user turns and holds a
    later user turn, everything up to and including its earliest user turn is
    dropped. *)
Theorem trim_twice encode H L :
  exists T T',
    trim encode H L = Ok T /\
    trim encode T L = Ok T' /\
    T' `suffix_of` T /\
    (T' = T <-> first_user T = None \/
                exists u rest, T = u :: rest /\ role u = "user") /\
    T' = stranded T /\
    (forall pre u rest,
        T = pre ++ u :: rest ->
        pre <> [] ->
        Forall (fun t => role t <> "user") pre ->
        role u = "user" ->
        T' = rest).
Proof.
  destruct (trim_total encode H L) as (T & HT & _ & Hfit).
  destruct (strand_first_user T) as (T' & HT' & Hsuf & Hiff).
  assert (T' = stranded T) as HT'' by (rewrite strand_stranded in HT'; congruence).
  exists T, T'. split_and!; [done | | done | done | done |].
  - by rewrite trim_fitting.
  - intros pre u rest -> Hne Hpre Hu. rewrite HT''. by apply stranded_after.
Qed.

(** ** Properties of construction and of one exchange *)

Lemma append_empty_r (x : string) : x +:+ "" = x.
Proof.
  induction x as [|c x IH]; [done|].
  change (String c (x +:+ "") = String c x). by rewrite IH.
Qed.

Lemma set_answer_same s : set_answer (_answer s) s = s.
Proof. by destruct s. Qed.

Lemma example_session_init stream raise_on_errors :
  __init__ (fun _ => Some char_encode) "sys" [] "gpt-4" 400 stream
           (fun text => text) raise_on_errors
  = Ok (example_session stream raise_on_errors).
Proof. reflexivity. Qed.

(** What the constructor guarantees: the reservation is at most the capacity
    of the model, and the session starts with empty history and answer. *)
Lemma init_ok efm sp ex m mo st pre r s :
  __init__ efm sp ex m mo st pre r = Ok s ->
  exists cap, capacity m = Some cap /\ mo <= cap /\
              model s = m /\ max_output_length s = mo /\
              history s = [] /\ _answer s = "".
Proof.
  unfold __init__. destruct (capacity m) as [cap|]; [|done].
  destruct (Z.ltb_spec cap mo); [done|].
  destruct (match efm m with Some e => Some e | None => efm "gpt-3.5-turbo" end);
    [|done].
  intros [= <-]. exists cap. by split_and!.
Qed.

Lemma get_trimmed_history_total s :
  exists T, get_trimmed_history s = Ok T /\ T `suffix_of` history s.
Proof.
  unfold get_trimmed_history.
  destruct (trim_total (encoder s) (history s)
              (tokens_available s - max_output_length s)) as (T & ? & ? & _).
  by exists T.
Qed.

(** [__call__] appends the user turn, trims, and dispatches. *)
Lemma call_dispatch create input s :
  exists T,
    T `suffix_of` (history s ++ [Turn "user" (preprocessor s input)]) /\
    __call__ create input s = api_answer_wrapper create (set_history T s).
Proof.
  unfold __call__.
  destruct (get_trimmed_history_total
              (set_history (history s ++ [Turn "user" (preprocessor s input)]) s))
    as (T & -> & Hsuf).
  by exists T.
Qed.

Lemma api_answer_wrapper_generator create s u :
  (forall req, create req = Ok (RawGenerator u)) ->
  api_answer_wrapper create s = (Ok (RGenerator u), s).
Proof. intros Hc. unfold api_answer_wrapper, call_raw_api. by rewrite Hc. Qed.

Lemma api_answer_wrapper_keeps_answer create s r s' :
  api_answer_wrapper create s = (Ok r, s') ->
  (exists u, r = RGenerator u) \/ (exists f, r = RSimpleStringIterator f) ->
  _answer s' = _answer s.
Proof.
  unfold api_answer_wrapper, call_raw_api.
  destruct (create _) as [[f|u|c|x]|e]; cbn.
  - by intros [= <- <-].
  - by intros [= <- <-].
  - destruct (process_response c s) as [[x|e] s1]; [|done].
    intros [= <- <-] [[u ?]|[f ?]]; discriminate.
  - done.
  - destruct (raise_on_error s); [done|]. destruct (stream s); [|done].
    by intros [= <- <-].
Qed.

Lemma process_response_delta c s :
  process_response (delta_chunk c) s
  = (Ok (Some c), set_answer (_answer s +:+ c) s).
Proof. reflexivity. Qed.

Lemma process_response_terminal_stream c s :
  stream s = true ->
  finish_reason c = Some "stop" \/ finish_reason c = Some "length" ->
  process_response c s
  = (Ok None,
     set_answer ""
       (set_history (history s ++ [Turn "assistant" (_answer s)]) s)).
Proof.
  intros Hs Hfr. unfold process_response.
  destruct Hfr as [-> | ->]; cbn; by rewrite Hs.
Qed.

Lemma process_response_terminal_answer c s :
  finish_reason c = Some "stop" \/ finish_reason c = Some "length" ->
  exists x s', process_response c s = (Ok x, s') /\ _answer s' = "".
Proof.
  intros Hfr. unfold process_response.
  destruct Hfr as [-> | ->]; cbn;
    destruct (stream s), (message c) as [[?|]|]; eauto.
Qed.

(** [process_response] itself never raises the error the wrapper catches. *)
Lemma process_response_raise c s e s' :
  process_response c s = (Raise e, s') -> exn_cls e <> ChunkedEncodingError.
Proof.
  unfold process_response. destruct (finish_reason c) as [reason|].
  - destruct (decide _).
    + by destruct (stream s), (message c) as [[?|]|].
    + by intros [= <- <-].
  - destruct (delta c); [done|]. by intros [= <- <-].
Qed.

Lemma generator_wrapper_completes u s frs s' :
  completes u -> generator_wrapper u s = (frs, None, s') -> _answer s' = "".
Proof.
  revert s frs s'. induction u as [|c rest IH|e]; [done| |done].
  intros s frs s' Hc. cbn [generator_wrapper].
  destruct (process_response c s) as [[piece|e] s1] eqn:Hp.
  - destruct (generator_wrapper rest s1) as [[yielded e1] s2] eqn:Hg.
    intros [= _ -> ->]. destruct rest as [|c' rest'|e'].
    + cbn in Hg. injection Hg as _ <-.
      destruct (process_response_terminal_answer c s Hc) as (x & s3 & Hp' & ?).
      congruence.
    + by eapply IH.
    + done.
  - apply process_response_raise in Hp. unfold generator_except.
    by rewrite decide_False.
Qed.

Lemma generator_except_nonempty e s :
  Forall (fun f => f <> "") (generator_except e s).1.1.
Proof.
  unfold generator_except. destruct (decide _); [|by constructor].
  vm_compute. repeat constructor; discriminate.
Qed.

Lemma generator_wrapper_nonempty u s :
  Forall (fun f => f <> "") (generator_wrapper u s).1.1.
Proof.
  revert s. induction u as [|c rest IH|e]; intros s; cbn [generator_wrapper].
  - constructor.
  - destruct (process_response c s) as [[piece|e] s1].
    + specialize (IH s1).
      destruct (generator_wrapper rest s1) as [[yielded e1] s2]. cbn in *.
      destruct piece as [p|]; [|done].
      destruct (decide (p = "")); [done | by constructor].
    + apply generator_except_nonempty.
  - apply generator_except_nonempty.
Qed.

(** ** Claims about construction *)

(** C4, evaluated where the code departs from the claim.  A reservation
    equal to the capacity of the model ([8192] for [gpt-4]) is accepted: the
    constructor returns a session whose reservation is not below the
    capacity. *)
Theorem init_accepts_reservation_equal_to_capacity
    efm enc sp ex st pre r :
  efm "gpt-4" = Some enc ->
  exists s,
    __init__ efm sp ex "gpt-4" 8192 st pre r = Ok s /\
    capacity (model s) = Some 8192 /\
    max_output_length s = 8192.
Proof.
  intros Henc. unfold __init__. cbn. rewrite Henc. eexists. by split_and!.
Qed.

Lemma init_accepts_reservation_equal_to_capacity_witness :
  (fun _ : string => Some char_encode) "gpt-4" = Some char_encode /\
  exists s,
    __init__ (fun _ => Some char_encode) "sys" [] "gpt-4" 8192 false
             (fun text => text) false = Ok s /\
    capacity (model s) = Some 8192 /\
    max_output_length s = 8192.
Proof.
  split; [reflexivity|].
  apply (init_accepts_reservation_equal_to_capacity
           (fun _ => Some char_encode) char_encode).
  reflexivity.
Defined.

(** ** Claims about error handling *)

(** C1, evaluated where the code departs from the claim.  Without streaming
    and without raise-on-error, a failure of the service does not make the
    call return the error string: [api_answer_wrapper] has no case for a
    plain string and the call raises [ValueError].  The hook has run once
    and no assistant turn was appended. *)
Theorem call_failure_without_stream_raises create input s e :
  stream s = false ->
  raise_on_error s = false ->
  (forall req, create req = Raise e) ->
  exists msg s',
    __call__ create input s = (Raise (Exn ValueError msg), s') /\
    on_error_calls s' = S (on_error_calls s) /\
    history s' `suffix_of` (history s ++ [Turn "user" (preprocessor s input)]).
Proof.
  intros Hs Hr Hc.
  destruct (call_dispatch create input s) as (T & Hsuf & ->).
  unfold api_answer_wrapper, call_raw_api. rewrite Hc. cbn.
  rewrite Hr, Hs. eexists _, _. by split_and!.
Qed.

Lemma call_failure_without_stream_raises_witness :
  stream (example_session false false) = false /\
  raise_on_error (example_session false false) = false /\
  (forall req, failing_service (Exn OpenAIError "Rate limit reached") req
               = Raise (Exn OpenAIError "Rate limit reached")) /\
  exists msg s',
    __call__ (failing_service (Exn OpenAIError "Rate limit reached")) "hello"
             (example_session false false)
      = (Raise (Exn ValueError msg), s') /\
    on_error_calls s' = S (on_error_calls (example_session false false)) /\
    history s' `suffix_of`
      (history (example_session false false)
       ++ [Turn "user" (preprocessor (example_session false false) "hello")]).
Proof.
  split_and!; [reflexivity | reflexivity | reflexivity |].
  apply (call_failure_without_stream_raises
           (failing_service (Exn OpenAIError "Rate limit reached")) "hello"
           (example_session false false)
           (Exn OpenAIError "Rate limit reached"));
    reflexivity.
Defined.

(** The streaming half of C1 holds: the call returns the word-by-word
    iterator over the error message, which starts with three fixed words;
    the hook has run once and no assistant turn was appended. *)
Lemma call_failure_with_stream_degrades create input s e :
  stream s = true ->
  raise_on_error s = false ->
  (forall req, create req = Raise e) ->
  exists fragments s',
    __call__ create input s = (Ok (RSimpleStringIterator fragments), s') /\
    fragments <> [] /\
    Forall (fun f => f <> "") fragments /\
    on_error_calls s' = S (on_error_calls s) /\
    history s' `suffix_of` (history s ++ [Turn "user" (preprocessor s input)]).
Proof.
  intros Hs Hr Hc.
  destruct (call_dispatch create input s) as (T & Hsuf & ->).
  unfold api_answer_wrapper, call_raw_api. rewrite Hc. cbn.
  rewrite Hr, Hs. eexists _, _. split; [done|].
  split_and!; [| |done|done].
  - destruct (decide _); vm_compute; discriminate.
  - unfold SimpleStringIterator. apply Forall_fmap, Forall_true.
    intros tok. cbn. by destruct tok.
Qed.

(** C3, evaluated where the code departs from the claim.  With
    raise-on-error set, a [ChunkedEncodingError] raised by the upstream
    generator after a first delta does not reach the consumer: the wrapper
    runs the hook once and yields the fixed message word by word, ending
    normally. *)
Theorem midstream_failure_is_not_propagated s msg :
  raise_on_error s = true ->
  generator_wrapper
    (Yield (delta_chunk "A") (Throw (Exn ChunkedEncodingError msg))) s
  = (["A"; "openAI "; "error. "; "Please "; "try "; "again. "], None,
     on_error (set_answer (_answer s +:+ "A") s)).
Proof. intros _. reflexivity. Qed.

Lemma midstream_failure_is_not_propagated_witness :
  raise_on_error (example_session true true) = true /\
  generator_wrapper
    (Yield (delta_chunk "A") (Throw (Exn ChunkedEncodingError "broken")))
    (example_session true true)
  = (["A"; "openAI "; "error. "; "Please "; "try "; "again. "], None,
     on_error (set_answer (_answer (example_session true true) +:+ "A")
                          (example_session true true))).
Proof.
  split; [reflexivity|].
  apply (midstream_failure_is_not_propagated (example_session true true)
           "broken").
  reflexivity.
Defined.

(** ** Claims about response normalisation *)

(** C7, as stated, fails: it holds only when the accumulator is empty when
    the call is made.  After a first streamed exchange that delivered ["A"]
    and then broke with a transport error, the session is still in streaming
    mode; the exchange with the deltas ["A"], ["B"], ["C"] and the [stop]
    chunk then records the assistant turn ["AABC"], not ["ABC"]. *)
Lemma streaming_accumulation_with_leftover :
  exists s1 s2 s3 s4 fragments,
    __call__ (streaming_service broken_upstream) "first"
             (example_session true false)
      = (Ok (RGenerator broken_upstream), s1) /\
    consume (RGenerator broken_upstream) s1 = (fragments, None, s2) /\
    stream s2 = true /\
    __call__ (streaming_service (abc_upstream (terminal_chunk "stop")))
             "second" s2
      = (Ok (RGenerator (abc_upstream (terminal_chunk "stop"))), s3) /\
    consume (RGenerator (abc_upstream (terminal_chunk "stop"))) s3
      = (["A"; "B"; "C"], None, s4) /\
    history s4 = history s3 ++ [Turn "assistant" "AABC"] /\
    history s4 <> history s3 ++ [Turn "assistant" "ABC"].
Proof.
  eexists _, _, _, _, _.
  split_and!; [vm_compute; reflexivity.. | ].
  vm_compute. discriminate.
Qed.

(** C7, amended.  In streaming mode, with the accumulator empty as the constructor, a
    reset or a completed exchange leave it, a call whose upstream generator
    carries the deltas ["A"], ["B"], ["C"] and then a [stop] chunk returns
    the wrapped generator; consuming it fully yields the three deltas,
    appends exactly one assistant turn with content ["ABC"] to the history
    and leaves the accumulator empty. *)
Theorem streaming_accumulation create input s stop :
  stream s = true ->
  _answer s = "" ->
  finish_reason stop = Some "stop" ->
  (forall req, create req = Ok (RawGenerator (abc_upstream stop))) ->
  exists s1 s2,
    __call__ create input s = (Ok (RGenerator (abc_upstream stop)), s1) /\
    consume (RGenerator (abc_upstream stop)) s1
      = (["A"; "B"; "C"], None, s2) /\
    history s2 = history s1 ++ [Turn "assistant" "ABC"] /\
    _answer s2 = "".
Proof.
  intros Hs Ha Hstop Hc.
  destruct (call_dispatch create input s) as (T & Hsuf & ->).
  rewrite (api_answer_wrapper_generator _ _ _ Hc).
  eexists _, _. split; [done|].
  unfold consume, abc_upstream. cbn [generator_wrapper].
  rewrite !process_response_delta.
  rewrite process_response_terminal_stream by (done || by left).
  cbn. rewrite Ha. by split_and!.
Qed.

Lemma streaming_accumulation_witness :
  stream (example_session true false) = true /\
  _answer (example_session true false) = "" /\
  finish_reason (terminal_chunk "stop") = Some "stop" /\
  (forall req,
      streaming_service (abc_upstream (terminal_chunk "stop")) req
      = Ok (RawGenerator (abc_upstream (terminal_chunk "stop")))) /\
  exists s1 s2,
    __call__ (streaming_service (abc_upstream (terminal_chunk "stop")))
             "hello" (example_session true false)
      = (Ok (RGenerator (abc_upstream (terminal_chunk "stop"))), s1) /\
    consume (RGenerator (abc_upstream (terminal_chunk "stop"))) s1
      = (["A"; "B"; "C"], None, s2) /\
    history s2 = history s1 ++ [Turn "assistant" "ABC"] /\
    _answer s2 = "".
Proof.
  split_and!; [reflexivity | reflexivity | reflexivity | reflexivity |].
  apply (streaming_accumulation
           (streaming_service (abc_upstream (terminal_chunk "stop")))
           "hello" (example_session true false) (terminal_chunk "stop"));
    reflexivity.
Defined.

(** C8. Without streaming, processing a response object whose finish reason
    is [stop] and whose message content is [x] appends exactly one assistant
    turn with content [x] to the history, leaves the accumulator empty and
    returns [x]; this is what [api_answer_wrapper] returns when the service
    answers with that object. *)
Theorem non_streaming_round_trip c x s :
  stream s = false ->
  finish_reason c = Some "stop" ->
  message c = Some (Some x) ->
  exists s',
    process_response c s = (Ok (Some x), s') /\
    history s' = history s ++ [Turn "assistant" x] /\
    _answer s' = "" /\
    forall create,
      (forall req, create req = Ok (RawOpenAIObject c)) ->
      api_answer_wrapper create s = (Ok (RValue (Some x)), s').
Proof.
  intros Hs Hfr Hm. unfold process_response. rewrite Hfr, Hs, Hm. cbn.
  eexists. split_and!; [done..|].
  intros create Hc. unfold api_answer_wrapper, call_raw_api. rewrite Hc.
  unfold process_response. rewrite Hfr, Hs, Hm. reflexivity.
Qed.

Lemma non_streaming_round_trip_witness :
  stream (example_session false false) = false /\
  finish_reason (Choice (Some "stop") None (Some (Some "X"))) = Some "stop" /\
  message (Choice (Some "stop") None (Some (Some "X"))) = Some (Some "X") /\
  exists s',
    process_response (Choice (Some "stop") None (Some (Some "X")))
                     (example_session false false)
      = (Ok (Some "X"), s') /\
    history s'
      = history (example_session false false) ++ [Turn "assistant" "X"] /\
    _answer s' = "" /\
    forall create,
      (forall req,
          create req
          = Ok (RawOpenAIObject (Choice (Some "stop") None (Some (Some "X"))))) ->
      api_answer_wrapper create (example_session false false)
      = (Ok (RValue (Some "X")), s').
Proof.
  split_and!; [reflexivity | reflexivity | reflexivity |].
  apply (non_streaming_round_trip
           (Choice (Some "stop") None (Some (Some "X"))) "X"
           (example_session false false));
    reflexivity.
Defined.

(** C9, as stated, fails.  A first streamed exchange delivers the delta ["A"]
    and then breaks with a transport error; it is consumed to the end.  The
    second call starts with the accumulator still holding ["A"], and its
    assistant turn is ["AB"] for the single delta ["B"]. *)
Lemma pending_answer_not_reset_at_start :
  exists s1 s2 s3 s4 fragments,
    __call__ (streaming_service broken_upstream) "first"
             (example_session true false)
      = (Ok (RGenerator broken_upstream), s1) /\
    consume (RGenerator broken_upstream) s1 = (fragments, None, s2) /\
    __call__ (streaming_service short_upstream) "second" s2
      = (Ok (RGenerator short_upstream), s3) /\
    _answer s3 = "A" /\ _answer s3 <> "" /\
    consume (RGenerator short_upstream) s3 = (["B"], None, s4) /\
    last (history s4) = Some (Turn "assistant" "AB").
Proof.
  eexists _, _, _, _, _.
  split_and!;
    [vm_compute; reflexivity.. | discriminate
    | vm_compute; reflexivity | reflexivity].
Qed.

(** C9, amended.  A streamed exchange starts with the accumulator empty
    whenever it was empty when the call was made.  It is empty in a session
    the constructor returned, after a reset, and after a stream that was
    consumed through its terminal marker: the accumulator is reset there,
    not at the start of a call. *)
Theorem pending_answer_at_exchange_start create input s u s1 :
  _answer s = "" ->
  __call__ create input s = (Ok (RGenerator u), s1) ->
  _answer s1 = "" /\
  (forall fragments s2,
      completes u ->
      consume (RGenerator u) s1 = (fragments, None, s2) ->
      _answer s2 = "") /\
  (forall s', _answer (reset s') = "") /\
  (forall efm sp ex m mo st pre r s0,
      __init__ efm sp ex m mo st pre r = Ok s0 -> _answer s0 = "").
Proof.
  intros Ha Hcall.
  destruct (call_dispatch create input s) as (T & _ & Heq).
  rewrite Heq in Hcall. split_and!.
  - apply api_answer_wrapper_keeps_answer in Hcall; [|eauto].
    by rewrite Hcall.
  - intros fragments s2 Hu Hg. by eapply generator_wrapper_completes.
  - reflexivity.
  - intros efm sp ex m mo st pre r s0 Hinit.
    by destruct (init_ok _ _ _ _ _ _ _ _ _ Hinit) as (? & ? & ? & ? & ? & ? & ?).
Qed.

Lemma pending_answer_at_exchange_start_witness :
  _answer (example_session true false) = "" /\
  __call__ (streaming_service short_upstream) "hello"
           (example_session true false)
    = (Ok (RGenerator short_upstream),
       set_history [Turn "user" "hello"] (example_session true false)) /\
  _answer (set_history [Turn "user" "hello"] (example_session true false))
    = "" /\
  (forall fragments s2,
      completes short_upstream ->
      consume (RGenerator short_upstream)
              (set_history [Turn "user" "hello"] (example_session true false))
        = (fragments, None, s2) ->
      _answer s2 = "") /\
  (forall s', _answer (reset s') = "") /\
  (forall efm sp ex m mo st pre r s0,
      __init__ efm sp ex m mo st pre r = Ok s0 -> _answer s0 = "").
Proof.
  split; [reflexivity|]. split; [vm_compute; reflexivity|].
  apply (pending_answer_at_exchange_start
           (streaming_service short_upstream) "hello"
           (example_session true false) short_upstream
           (set_history [Turn "user" "hello"] (example_session true false)));
    [reflexivity | vm_compute; reflexivity].
Defined.

(** C10. Every fragment the streaming wrapper yields is a non-empty string.
    A chunk whose delta has no content, or an empty one, yields nothing and
    leaves the session as it was; in streaming mode the terminal chunk
    yields nothing either. *)
Theorem wrapper_yields_nonempty_fragments u s :
  stream s = true ->
  Forall (fun f => f <> "") (generator_wrapper u s).1.1 /\
  (forall c rest,
      finish_reason c = None ->
      delta c = Some None \/ delta c = Some (Some "") ->
      generator_wrapper (Yield c rest) s = generator_wrapper rest s) /\
  (forall c rest,
      finish_reason c = Some "stop" \/ finish_reason c = Some "length" ->
      exists s',
        process_response c s = (Ok None, s') /\
        generator_wrapper (Yield c rest) s = generator_wrapper rest s').
Proof.
  intros Hs. split_and!.
  - apply generator_wrapper_nonempty.
  - intros c rest Hfr Hd. cbn [generator_wrapper]. unfold process_response.
    rewrite Hfr. destruct Hd as [-> | ->];
      rewrite append_empty_r, set_answer_same;
      by destruct (generator_wrapper rest s) as [[??]?].
  - intros c rest Hfr. eexists. split.
    + by apply process_response_terminal_stream.
    + cbn [generator_wrapper].
      rewrite process_response_terminal_stream by done.
      by destruct (generator_wrapper rest _) as [[??]?].
Qed.

Lemma wrapper_yields_nonempty_fragments_witness :
  stream (example_session true false) = true /\
  Forall (fun f => f <> "")
         (generator_wrapper short_upstream (example_session true false)).1.1 /\
  (forall c rest,
      finish_reason c = None ->
      delta c = Some None \/ delta c = Some (Some "") ->
      generator_wrapper (Yield c rest) (example_session true false)
      = generator_wrapper rest (example_session true false)) /\
  (forall c rest,
      finish_reason c = Some "stop" \/ finish_reason c = Some "length" ->
      exists s',
        process_response c (example_session true false) = (Ok None, s') /\
        generator_wrapper (Yield c rest) (example_session true false)
        = generator_wrapper rest s').
Proof.
  split; [reflexivity|].
  apply (wrapper_yields_nonempty_fragments short_upstream
           (example_session true false)).
  reflexivity.
Defined.

(** ** Further properties of trimming *)

Section TrimmingMore.

Variable encode : string -> list nat.

Local Abbreviation tok el := (get_number_of_tokens encode (InDict el)).

(** While the turns fit, the loop takes them and goes on. *)
Lemma trim_scan_fits L l rest trimmed c u :
  c + Z.of_nat (new_length encode l) <= L ->
  trim_scan encode L (reverse l ++ rest) trimmed c u
  = trim_scan encode L rest (l ++ trimmed)
      (c + Z.of_nat (new_length encode l)) (tracked l u).
Proof.
  revert trimmed c u. induction l as [|x l IH] using rev_ind;
    intros trimmed c u Hfit.
  - cbn. by rewrite Z.add_0_r.
  - rewrite reverse_snoc. cbn [app trim_scan].
    rewrite new_length_app, new_length_cons in *.
    change (new_length encode []) with 0%nat in *.
    destruct (Z.ltb_spec L (c + Z.of_nat (tok x))) as [Hlt|Hle]; [lia|].
    rewrite IH by lia. rewrite tracked_snoc, <- app_assoc.
    f_equal. lia.
Qed.

(** The loop stops at the longest suffix that fits. *)
Lemma trim_decompose k T0 L :
  (T0 <> [] -> Z.of_nat (new_length encode T0) <= L) ->
  (forall k' x, k = k' ++ [x] ->
                L < Z.of_nat (tok x) + Z.of_nat (new_length encode T0)) ->
  trim encode (k ++ T0) L = strand T0 (first_user T0).
Proof.
  intros Hfit Hmax. unfold trim. rewrite reverse_app.
  assert (Hstop : forall c,
             c = Z.of_nat (new_length encode T0) ->
             trim_scan encode L (reverse k) (T0 ++ []) c (tracked T0 None)
             = (T0, first_user T0)).
  { intros c ->. rewrite app_nil_r.
    assert (tracked T0 None = first_user T0) as ->
      by (unfold tracked; by destruct (first_user T0)).
    destruct k as [|y k] using rev_ind; [done|].
    rewrite reverse_snoc. cbn [trim_scan].
    specialize (Hmax _ _ eq_refl).
    destruct (Z.ltb_spec L (Z.of_nat (new_length encode T0) + Z.of_nat (tok y)));
      [done | lia]. }
  destruct T0 as [|t T0].
  - cbn [reverse app]. change (reverse [] ++ reverse k) with (reverse k).
    by rewrite <- (app_nil_r []) at 1; rewrite Hstop.
  - rewrite trim_scan_fits by (specialize (Hfit ltac:(done)); lia).
    by rewrite Hstop.
Qed.

End TrimmingMore.

(** X1. [trim] computes the longest suffix of the history that fits the
    limit and then applies the stranding rule to it: if [T0] fits, and the
    turn before it (if any) would overflow, the result is [T0] when [T0] has
    no user turn or begins with one, and otherwise what follows the earliest
    user turn of [T0]. *)
Theorem trim_exact encode k T0 L :
  (T0 <> [] -> Z.of_nat (new_length encode T0) <= L) ->
  (forall k' x, k = k' ++ [x] ->
                L < Z.of_nat (get_number_of_tokens encode (InDict x))
                    + Z.of_nat (new_length encode T0)) ->
  trim encode (k ++ T0) L = Ok (stranded T0).
Proof.
  intros Hfit Hmax. rewrite trim_decompose by done. apply strand_stranded.
Qed.

Lemma trim_exact_witness :
  ([Turn "assistant" "cc"; Turn "user" "dd"; Turn "assistant" "ee"] <> [] ->
   Z.of_nat (new_length char_encode
               [Turn "assistant" "cc"; Turn "user" "dd"; Turn "assistant" "ee"])
   <= 7) /\
  (forall k' x, [Turn "user" "bb"] = k' ++ [x] ->
                7 < Z.of_nat (get_number_of_tokens char_encode (InDict x))
                    + Z.of_nat (new_length char_encode
                        [Turn "assistant" "cc"; Turn "user" "dd";
                         Turn "assistant" "ee"])) /\
  trim char_encode
       ([Turn "user" "bb"]
        ++ [Turn "assistant" "cc"; Turn "user" "dd"; Turn "assistant" "ee"]) 7
  = Ok (stranded [Turn "assistant" "cc"; Turn "user" "dd"; Turn "assistant" "ee"]).
Proof.
  assert (forall k' x, [Turn "user" "bb"] = k' ++ [x] ->
                7 < Z.of_nat (get_number_of_tokens char_encode (InDict x))
                    + Z.of_nat (new_length char_encode
                        [Turn "assistant" "cc"; Turn "user" "dd";
                         Turn "assistant" "ee"])) as Hmax.
  { intros k' x Hk. destruct k' as [|y [|z k']]; [|done..].
    injection Hk as <-. cbn. lia. }
  split_and!; [cbn; lia | exact Hmax |].
  apply (trim_exact char_encode [Turn "user" "bb"]
           [Turn "assistant" "cc"; Turn "user" "dd"; Turn "assistant" "ee"] 7);
    [cbn; lia | exact Hmax].
Defined.

(** X2. A history that fits the limit as a whole and begins with a user turn
    is returned unchanged. *)
Theorem trim_keeps_fitting_history encode u rest L :
  role u = "user" ->
  Z.of_nat (new_length encode (u :: rest)) <= L ->
  trim encode (u :: rest) L = Ok (u :: rest).
Proof.
  intros Hu Hfit. rewrite trim_fitting by done.
  rewrite first_user_cons, decide_True by done. cbn.
  by rewrite decide_False by (intros ?; done).
Qed.

Lemma trim_keeps_fitting_history_witness :
  role (Turn "user" "hi") = "user" /\
  Z.of_nat (new_length char_encode
              (Turn "user" "hi" :: [Turn "assistant" "hello"])) <= 10 /\
  trim char_encode (Turn "user" "hi" :: [Turn "assistant" "hello"]) 10
  = Ok (Turn "user" "hi" :: [Turn "assistant" "hello"]).
Proof.
  split_and!; [reflexivity | cbn; lia |].
  apply (trim_keeps_fitting_history char_encode (Turn "user" "hi")
           [Turn "assistant" "hello"] 10); [reflexivity | cbn; lia].
Defined.

(** X3. When the longest fitting suffix begins with a turn that is not a user
    turn and its only user turn is the last one (the request just appended),
    the stranding rule drops that request too: the trimmed history is
    empty. *)
Theorem trim_drops_the_new_request encode k a mid u L :
  role a <> "user" ->
  Forall (fun t => role t <> "user") mid ->
  role u = "user" ->
  Z.of_nat (new_length encode (a :: mid ++ [u])) <= L ->
  (forall k' x, k = k' ++ [x] ->
                L < Z.of_nat (get_number_of_tokens encode (InDict x))
                    + Z.of_nat (new_length encode (a :: mid ++ [u]))) ->
  trim encode (k ++ a :: mid ++ [u]) L = Ok [].
Proof.
  intros Ha Hmid Hu Hfit Hmax.
  rewrite trim_decompose by done. rewrite strand_stranded. f_equal.
  unfold stranded.
  assert (list_find is_user (a :: mid ++ [u]) = Some (S (length mid), u)) as ->.
  { apply list_find_Some. split_and!.
    - change ((mid ++ [u]) !! length mid = Some u).
      by rewrite lookup_app_r, Nat.sub_diag.
    - done.
    - intros j y Hj Hlt. destruct j as [|j].
      + by injection Hj as <-.
      + change ((mid ++ [u]) !! j = Some y) in Hj.
        rewrite lookup_app_l in Hj by lia.
        rewrite Forall_lookup in Hmid. by eapply Hmid. }
  apply drop_ge. cbn. rewrite length_app. cbn. lia.
Qed.

Lemma trim_drops_the_new_request_witness :
  role (Turn "assistant" "cc") <> "user" /\
  Forall (fun t => role t <> "user") [] /\
  role (Turn "user" "dd") = "user" /\
  Z.of_nat (new_length char_encode
              (Turn "assistant" "cc" :: [] ++ [Turn "user" "dd"])) <= 5 /\
  (forall k' x, [Turn "user" "bb"] = k' ++ [x] ->
                5 < Z.of_nat (get_number_of_tokens char_encode (InDict x))
                    + Z.of_nat (new_length char_encode
                        (Turn "assistant" "cc" :: [] ++ [Turn "user" "dd"]))) /\
  trim char_encode
       ([Turn "user" "bb"] ++ Turn "assistant" "cc" :: [] ++ [Turn "user" "dd"])
       5 = Ok [].
Proof.
  assert (forall k' x, [Turn "user" "bb"] = k' ++ [x] ->
                5 < Z.of_nat (get_number_of_tokens char_encode (InDict x))
                    + Z.of_nat (new_length char_encode
                        (Turn "assistant" "cc" :: [] ++ [Turn "user" "dd"])))
    as Hmax.
  { intros k' x Hk. destruct k' as [|y [|z k']]; [|done..].
    injection Hk as <-. cbn. lia. }
  split_and!; [discriminate | constructor | reflexivity | cbn; lia
              | exact Hmax |].
  apply (trim_drops_the_new_request char_encode [Turn "user" "bb"]
           (Turn "assistant" "cc") [] (Turn "user" "dd") 5);
    [discriminate | constructor | reflexivity | cbn; lia | exact Hmax].
Defined.

(** X4. When the most recent turn alone exceeds the limit (in particular
    when the limit is negative), nothing is kept. *)
Theorem trim_oversized_last_turn encode H x L :
  L < Z.of_nat (get_number_of_tokens encode (InDict x)) ->
  trim encode (H ++ [x]) L = Ok [].
Proof.
  intros Hbig. unfold trim. rewrite reverse_snoc. cbn [trim_scan].
  destruct (Z.ltb_spec L (0 + Z.of_nat (get_number_of_tokens encode (InDict x))));
    [done | lia].
Qed.

Lemma trim_oversized_last_turn_witness :
  3 < Z.of_nat (get_number_of_tokens char_encode
                  (InDict (Turn "user" "a long request"))) /\
  trim char_encode ([Turn "user" "hi"; Turn "assistant" "yo"]
                    ++ [Turn "user" "a long request"]) 3 = Ok [].
Proof.
  split; [cbn; lia|].
  apply (trim_oversized_last_turn char_encode
           [Turn "user" "hi"; Turn "assistant" "yo"]
           (Turn "user" "a long request") 3).
  cbn; lia.
Defined.

(** ** Further properties of streaming *)

Lemma append_assoc (x y z : string) : (x +:+ y) +:+ z = x +:+ y +:+ z.
Proof.
  induction x as [|c x IH]; [done|].
  change (String c ((x +:+ y) +:+ z) = String c (x +:+ y +:+ z)).
  by rewrite IH.
Qed.

Lemma concat_all_cons d ds : concat_all (d :: ds) = d +:+ concat_all ds.
Proof.
  unfold concat_all. destruct ds as [|d' ds]; cbn [String.concat].
  - by rewrite append_empty_r.
  - reflexivity.
Qed.

Lemma concat_all_passed_on ds : concat_all (passed_on ds) = concat_all ds.
Proof.
  unfold passed_on. induction ds as [|d ds IH]; [done|].
  rewrite filter_cons. destruct (decide (d <> "")) as [Hd|Hd].
  - by rewrite !concat_all_cons, IH.
  - apply dec_stable in Hd as ->. by rewrite concat_all_cons, IH.
Qed.

(** The wrapper passes the non-empty deltas on and accumulates all of them
    before it goes on with the rest of the stream. *)
Lemma generator_wrapper_deltas ds tail s :
  generator_wrapper (deltas_then ds tail) s
  = let '(yielded, e, s') :=
      generator_wrapper tail (set_answer (_answer s +:+ concat_all ds) s) in
    (passed_on ds ++ yielded, e, s').
Proof.
  revert s. induction ds as [|d ds IH]; intros s.
  - cbn [deltas_then foldr]. change (concat_all []) with "".
    rewrite append_empty_r, set_answer_same.
    by destruct (generator_wrapper tail s) as [[??]?].
  - cbn [deltas_then foldr generator_wrapper].
    rewrite process_response_delta. fold (deltas_then ds tail). rewrite IH.
    rewrite concat_all_cons, <- append_assoc.
    change (set_answer (_answer (set_answer (_answer s +:+ d) s) +:+ concat_all ds)
                       (set_answer (_answer s +:+ d) s))
      with (set_answer ((_answer s +:+ d) +:+ concat_all ds) s).
    destruct (generator_wrapper tail _) as [[yielded e] s'].
    unfold passed_on. rewrite filter_cons.
    destruct (decide (d = "")) as [->|Hd].
    + by rewrite decide_False by (intros H; by apply H).
    + by rewrite decide_True by done.
Qed.

Lemma process_response_invariants c s :
  same_config s (process_response c s).2 /\
  on_error_calls (process_response c s).2 = on_error_calls s /\
  exists added,
    history (process_response c s).2 = history s ++ added /\
    Forall (fun t => role t = "assistant") added.
Proof.
  unfold process_response. destruct (finish_reason c) as [reason|].
  - destruct (decide _).
    + destruct (stream s), (message c) as [[?|]|]; cbn;
        (split_and!; [by repeat split | done
                     | eexists [_]; split; [done | by repeat constructor]]).
    + cbn. split_and!; [by repeat split | done |].
      exists []. by rewrite app_nil_r.
  - destruct (delta c) as [d|]; cbn;
      (split_and!; [by repeat split | done
                   | exists []; by rewrite app_nil_r]).
Qed.

Lemma same_config_refl s : same_config s s.
Proof. by repeat split. Qed.

Lemma same_config_trans s1 s2 s3 :
  same_config s1 s2 -> same_config s2 s3 -> same_config s1 s3.
Proof.
  unfold same_config. intros H12 H23.
  destruct_and!. split_and!; congruence.
Qed.

Lemma generator_wrapper_invariants u s :
  same_config s (generator_wrapper u s).2 /\
  (on_error_calls s <= on_error_calls (generator_wrapper u s).2
   <= S (on_error_calls s))%nat /\
  exists added,
    history (generator_wrapper u s).2 = history s ++ added /\
    Forall (fun t => role t = "assistant") added.
Proof.
  assert (Hexc : forall e s0,
    same_config s0 (generator_except e s0).2 /\
    (on_error_calls s0 <= on_error_calls (generator_except e s0).2
     <= S (on_error_calls s0))%nat /\
    exists added,
      history (generator_except e s0).2 = history s0 ++ added /\
      Forall (fun t => role t = "assistant") added).
  { intros e s0. unfold generator_except. destruct (decide _); cbn;
      (split_and!; [by repeat split | lia | lia
                   | exists []; by rewrite app_nil_r]). }
  revert s. induction u as [|c rest IH|e]; intros s; cbn [generator_wrapper].
  - cbn. split_and!; [apply same_config_refl | lia | lia |].
    exists []. by rewrite app_nil_r.
  - destruct (process_response_invariants c s) as (Hcfg & Hcalls & added & Hh & Ha).
    destruct (process_response c s) as [[piece|e] s1]; cbn in Hcfg, Hcalls, Hh.
    + destruct (IH s1) as (Hcfg' & Hcalls' & added' & Hh' & Ha').
      destruct (generator_wrapper rest s1) as [[yielded e1] s2]. cbn in *.
      split_and!; [by eapply same_config_trans | lia | lia |].
      exists (added ++ added'). rewrite Hh', Hh, app_assoc.
      split; [done | by apply Forall_app].
    + destruct (Hexc e s1) as (Hcfg' & Hcalls' & added' & Hh' & Ha').
      split_and!; [by eapply same_config_trans | lia | lia |].
      exists (added ++ added'). rewrite Hh', Hh, app_assoc.
      split; [done | by apply Forall_app].
  - apply Hexc.
Qed.

(** X5. In streaming mode, for every sequence of deltas closed by a terminal
    marker ([stop] or [length]), the wrapper yields exactly the non-empty
    deltas, appends one assistant turn whose content is the accumulator
    followed by all the deltas, and empties the accumulator; the text of the
    yielded fragments is the text of the deltas. *)
Theorem streaming_accumulates_all_deltas ds c s :
  stream s = true ->
  finish_reason c = Some "stop" \/ finish_reason c = Some "length" ->
  generator_wrapper (deltas_then ds (Yield c StopIteration)) s
  = (passed_on ds, None,
     set_answer ""
       (set_history
          (history s ++ [Turn "assistant" (_answer s +:+ concat_all ds)]) s))
  /\ concat_all (passed_on ds) = concat_all ds.
Proof.
  intros Hs Hc. split; [|apply concat_all_passed_on].
  rewrite generator_wrapper_deltas. cbn [generator_wrapper].
  rewrite process_response_terminal_stream by done.
  by rewrite app_nil_r.
Qed.

Lemma streaming_accumulates_all_deltas_witness :
  stream (example_session true false) = true /\
  (finish_reason (terminal_chunk "length") = Some "stop" \/
   finish_reason (terminal_chunk "length") = Some "length") /\
  generator_wrapper
    (deltas_then ["Hel"; ""; "lo"] (Yield (terminal_chunk "length") StopIteration))
    (example_session true false)
  = (passed_on ["Hel"; ""; "lo"], None,
     set_answer ""
       (set_history
          (history (example_session true false)
           ++ [Turn "assistant"
                 (_answer (example_session true false)
                  +:+ concat_all ["Hel"; ""; "lo"])])
          (example_session true false)))
  /\ concat_all (passed_on ["Hel"; ""; "lo"]) = concat_all ["Hel"; ""; "lo"].
Proof.
  split; [reflexivity|]. split; [by right|].
  apply (streaming_accumulates_all_deltas ["Hel"; ""; "lo"]
           (terminal_chunk "length") (example_session true false));
    [reflexivity | by right].
Defined.

(** X6. When the upstream generator raises [ChunkedEncodingError] after any
    sequence of deltas, the wrapper yields the non-empty deltas and then the
    five words of the fixed message, and ends normally; the hook has run
    once, the history is unchanged (the partial answer is not recorded as a
    turn) and the deltas received so far stay in the accumulator. *)
Theorem broken_stream_degrades ds e s :
  exn_cls e = ChunkedEncodingError ->
  generator_wrapper (deltas_then ds (Throw e)) s
  = (passed_on ds ++ degraded_words, None,
     on_error (set_answer (_answer s +:+ concat_all ds) s)).
Proof.
  intros He. rewrite generator_wrapper_deltas. cbn [generator_wrapper].
  unfold generator_except. by rewrite decide_True by done.
Qed.

Lemma broken_stream_degrades_witness :
  exn_cls (Exn ChunkedEncodingError "broken") = ChunkedEncodingError /\
  generator_wrapper (deltas_then ["Hel"; "lo"] (Throw (Exn ChunkedEncodingError "broken")))
                    (example_session true false)
  = (passed_on ["Hel"; "lo"] ++ degraded_words, None,
     on_error (set_answer (_answer (example_session true false)
                           +:+ concat_all ["Hel"; "lo"])
                          (example_session true false))).
Proof.
  split; [reflexivity|].
  apply (broken_stream_degrades ["Hel"; "lo"]
           (Exn ChunkedEncodingError "broken") (example_session true false)).
  reflexivity.
Defined.

(** X7. Any other exception raised by the upstream generator reaches the
    consumer after the non-empty deltas; the hook does not run and no turn is
    appended. *)
Theorem other_stream_failure_propagates ds e s :
  exn_cls e <> ChunkedEncodingError ->
  generator_wrapper (deltas_then ds (Throw e)) s
  = (passed_on ds, Some e, set_answer (_answer s +:+ concat_all ds) s).
Proof.
  intros He. rewrite generator_wrapper_deltas. cbn [generator_wrapper].
  unfold generator_except. rewrite decide_False by done.
  by rewrite app_nil_r.
Qed.

Lemma other_stream_failure_propagates_witness :
  exn_cls (Exn OpenAIError "overloaded") <> ChunkedEncodingError /\
  generator_wrapper (deltas_then ["Hel"; "lo"] (Throw (Exn OpenAIError "overloaded")))
                    (example_session true false)
  = (passed_on ["Hel"; "lo"], Some (Exn OpenAIError "overloaded"),
     set_answer (_answer (example_session true false)
                 +:+ concat_all ["Hel"; "lo"])
                (example_session true false)).
Proof.
  split; [discriminate|].
  apply (other_stream_failure_propagates ["Hel"; "lo"]
           (Exn OpenAIError "overloaded") (example_session true false)).
  discriminate.
Defined.

(** X8. A finish reason other than [stop] and [length] is an error: the
    chunk raises [Exception] carrying the reason.  In a stream the exception
    reaches the consumer after the non-empty deltas, the chunks that follow
    are not read, the hook does not run and no turn is appended; for a
    response object [api_answer_wrapper] raises it and leaves the session
    as it was. *)
Theorem unknown_finish_reason_raises ds c rest reason create s :
  finish_reason c = Some reason ->
  reason <> "stop" -> reason <> "length" ->
  generator_wrapper (deltas_then ds (Yield c rest)) s
  = (passed_on ds, Some (Exn Exception reason),
     set_answer (_answer s +:+ concat_all ds) s) /\
  ((forall req, create req = Ok (RawOpenAIObject c)) ->
   api_answer_wrapper create s = (Raise (Exn Exception reason), s)).
Proof.
  intros Hc Hs Hl.
  assert (forall s0, process_response c s0 = (Raise (Exn Exception reason), s0))
    as Hp.
  { intros s0. unfold process_response. rewrite Hc.
    by rewrite decide_False by (intros [?|?]; done). }
  split.
  - rewrite generator_wrapper_deltas. cbn [generator_wrapper]. rewrite Hp.
    unfold generator_except. rewrite decide_False by done.
    by rewrite app_nil_r.
  - intros Hcreate. unfold api_answer_wrapper, call_raw_api.
    by rewrite Hcreate, Hp.
Qed.

Lemma unknown_finish_reason_raises_witness :
  finish_reason (terminal_chunk "content_filter") = Some "content_filter" /\
  "content_filter" <> "stop" /\ "content_filter" <> "length" /\
  generator_wrapper
    (deltas_then ["Hel"] (Yield (terminal_chunk "content_filter") short_upstream))
    (example_session true false)
  = (passed_on ["Hel"], Some (Exn Exception "content_filter"),
     set_answer (_answer (example_session true false) +:+ concat_all ["Hel"])
                (example_session true false)) /\
  ((forall req,
       (fun _ : request => Ok (RawOpenAIObject (terminal_chunk "content_filter")))
         req
       = Ok (RawOpenAIObject (terminal_chunk "content_filter"))) ->
   api_answer_wrapper
     (fun _ => Ok (RawOpenAIObject (terminal_chunk "content_filter")))
     (example_session true false)
   = (Raise (Exn Exception "content_filter"), example_session true false)).
Proof.
  split; [reflexivity|]. split; [discriminate|]. split; [discriminate|].
  apply (unknown_finish_reason_raises ["Hel"] (terminal_chunk "content_filter")
           short_upstream "content_filter"
           (fun _ => Ok (RawOpenAIObject (terminal_chunk "content_filter")))
           (example_session true false));
    [reflexivity | discriminate | discriminate].
Defined.

(** X9. Whatever the upstream generator does, consuming the wrapper keeps
    the configuration of the session, runs the hook at most once, and
    changes the history only by appending assistant turns. *)
Theorem consumption_invariants u s :
  same_config s (generator_wrapper u s).2 /\
  (on_error_calls s <= on_error_calls (generator_wrapper u s).2
   <= S (on_error_calls s))%nat /\
  exists added,
    history (generator_wrapper u s).2 = history s ++ added /\
    Forall (fun t => role t = "assistant") added.
Proof. apply generator_wrapper_invariants. Qed.

(** ** Further properties of a call *)

(** What [api_answer_wrapper] can do to a session: it keeps the
    configuration, appends at most assistant turns, and runs the hook only
    when it then raises or returns the error iterator. *)
Lemma api_answer_wrapper_invariants create s :
  same_config s (api_answer_wrapper create s).2 /\
  (exists added,
      history (api_answer_wrapper create s).2 = history s ++ added /\
      Forall (fun t => role t = "assistant") added) /\
  (on_error_calls (api_answer_wrapper create s).2 = on_error_calls s \/
   on_error_calls (api_answer_wrapper create s).2 = S (on_error_calls s) /\
   forall u, (api_answer_wrapper create s).1 <> Ok (RGenerator u)).
Proof.
  unfold api_answer_wrapper, call_raw_api.
  destruct (create _) as [[f|u|c|x]|e]; cbn.
  - split_and!; [apply same_config_refl | exists []; by rewrite app_nil_r
                | by left].
  - split_and!; [apply same_config_refl | exists []; by rewrite app_nil_r
                | by left].
  - destruct (process_response_invariants c s) as (Hcfg & Hcalls & Hh).
    destruct (process_response c s) as [[x|e] s1]; cbn in *;
      (split_and!; [done | done | by left]).
  - split_and!; [apply same_config_refl | exists []; by rewrite app_nil_r
                | by left].
  - destruct (raise_on_error s); [|destruct (stream s)]; cbn;
      (split_and!; [by repeat split | exists []; by rewrite app_nil_r
                   | right; by split]).
Qed.

Lemma after_exchange_invariants create input s :
  same_config s (after_exchange create input s) /\
  (on_error_calls s <= on_error_calls (after_exchange create input s)
   <= S (on_error_calls s))%nat /\
  exists T added,
    T `suffix_of` (history s ++ [Turn "user" (preprocessor s input)]) /\
    history (after_exchange create input s) = T ++ added /\
    Forall (fun t => role t = "assistant") added.
Proof.
  unfold after_exchange.
  destruct (call_dispatch create input s) as (T & Hsuf & ->).
  destruct (api_answer_wrapper_invariants create (set_history T s))
    as (Hcfg & (added & Hh & Ha) & Hcalls).
  destruct (api_answer_wrapper create (set_history T s)) as [[r|e] s1];
    cbn in Hcfg, Hh, Hcalls.
  - destruct r as [f|u|x]; cbn.
    + split_and!; [done | destruct Hcalls as [->| [-> _]]; cbn; lia..|].
      by exists T, added.
    + destruct Hcalls as [Hc|[_ Hne]]; [|by destruct (Hne u)].
      destruct (generator_wrapper_invariants u s1)
        as (Hcfg' & Hcalls' & added' & Hh' & Ha').
      split_and!; [by eapply same_config_trans
                  | rewrite Hc in Hcalls'; cbn in Hcalls'; lia.. |].
      exists T, (added ++ added'). rewrite Hh', Hh, app_assoc.
      split_and!; [done | done | by apply Forall_app].
    + split_and!; [done | destruct Hcalls as [->| [-> _]]; cbn; lia..|].
      by exists T, added.
  - split_and!; [done | destruct Hcalls as [->| [-> _]]; cbn; lia..|].
    by exists T, added.
Qed.

(** X10. One exchange (a call and the full consumption of what it returns),
    whatever the service and the stream do, keeps the configuration of the
    session and runs the hook at most once. *)
Theorem exchange_keeps_configuration create input s :
  same_config s (after_exchange create input s) /\
  (on_error_calls s <= on_error_calls (after_exchange create input s)
   <= S (on_error_calls s))%nat.
Proof.
  destruct (after_exchange_invariants create input s) as (? & ? & _).
  by split.
Qed.

(** X11. After one exchange the history is a suffix of the old history
    extended by the new user turn, followed by assistant turns only. *)
Theorem exchange_history_shape create input s :
  exists T added,
    T `suffix_of` (history s ++ [Turn "user" (preprocessor s input)]) /\
    history (after_exchange create input s) = T ++ added /\
    Forall (fun t => role t = "assistant") added.
Proof. by destruct (after_exchange_invariants create input s) as (_ & _ & ?). Qed.

(** X12. If the history holds only user and assistant turns, it still does
    after an exchange. *)
Theorem exchange_keeps_chat_turns create input s :
  Forall chat_turn (history s) ->
  Forall chat_turn (history (after_exchange create input s)).
Proof.
  intros Hs.
  destruct (after_exchange_invariants create input s)
    as (_ & _ & T & added & [k Hk] & -> & Ha).
  apply Forall_app. split.
  - assert (Forall chat_turn (history s ++ [Turn "user" (preprocessor s input)]))
      as Hall by (apply Forall_app; split; [done | repeat constructor; by left]).
    rewrite Hk in Hall. by apply Forall_app in Hall as [_ ?].
  - eapply Forall_impl; [exact Ha|]. intros t Ht. by right.
Qed.

Lemma exchange_keeps_chat_turns_witness :
  Forall chat_turn
    (history (set_history [Turn "user" "hi"; Turn "assistant" "yo"]
                          (example_session true false))) /\
  Forall chat_turn
    (history (after_exchange (streaming_service short_upstream) "more"
                (set_history [Turn "user" "hi"; Turn "assistant" "yo"]
                             (example_session true false)))).
Proof.
  assert (Forall chat_turn
    (history (set_history [Turn "user" "hi"; Turn "assistant" "yo"]
                          (example_session true false)))) as Hh
    by (apply Forall_cons; split; [by left|];
        apply Forall_cons; split; [by right | apply Forall_nil_2]).
  split; [exact Hh|].
  apply (exchange_keeps_chat_turns (streaming_service short_upstream) "more"
           (set_history [Turn "user" "hi"; Turn "assistant" "yo"]
                        (example_session true false))).
  exact Hh.
Defined.

(** X13. With raise-on-error set, a failure of the service makes the call
    raise the very exception the service raised, after the hook has run
    exactly once; no assistant turn is appended and the accumulator is
    untouched. *)
Theorem call_failure_reraises create input s e :
  raise_on_error s = true ->
  (forall req, create req = Raise e) ->
  exists s',
    __call__ create input s = (Raise e, s') /\
    on_error_calls s' = S (on_error_calls s) /\
    history s' `suffix_of` (history s ++ [Turn "user" (preprocessor s input)]) /\
    _answer s' = _answer s.
Proof.
  intros Hr Hc.
  destruct (call_dispatch create input s) as (T & Hsuf & ->).
  unfold api_answer_wrapper, call_raw_api. rewrite Hc. cbn. rewrite Hr.
  eexists. by split_and!.
Qed.

Lemma call_failure_reraises_witness :
  raise_on_error (example_session false true) = true /\
  (forall req, failing_service (Exn OpenAIError "Rate limit reached") req
               = Raise (Exn OpenAIError "Rate limit reached")) /\
  exists s',
    __call__ (failing_service (Exn OpenAIError "Rate limit reached")) "hello"
             (example_session false true)
      = (Raise (Exn OpenAIError "Rate limit reached"), s') /\
    on_error_calls s' = S (on_error_calls (example_session false true)) /\
    history s' `suffix_of`
      (history (example_session false true)
       ++ [Turn "user" (preprocessor (example_session false true) "hello")]) /\
    _answer s' = _answer (example_session false true).
Proof.
  split; [reflexivity|]. split; [reflexivity|].
  apply (call_failure_reraises
           (failing_service (Exn OpenAIError "Rate limit reached")) "hello"
           (example_session false true) (Exn OpenAIError "Rate limit reached"));
    reflexivity.
Defined.

(** X14. The service is consulted on one request: the model and the
    streaming flag of the session, and the system prompt, the examples and
    the trimmed history (the old history and the new user turn, trimmed) in
    this order.  The call depends on the service through that request only,
    and during the call the hook runs exactly when the service raises on
    it. *)
Theorem call_sends_one_request input s :
  exists T,
    trim (encoder s) (history s ++ [Turn "user" (preprocessor s input)])
         (tokens_available s - max_output_length s) = Ok T /\
    let req := {| req_model := model s; req_stream := stream s;
                  req_messages := system_prompt s :: initial_examples s ++ T |} in
    (forall create create',
        create req = create' req ->
        __call__ create input s = __call__ create' input s) /\
    (forall create,
        on_error_calls (__call__ create input s).2
        = match create req with
          | Raise _ => S (on_error_calls s)
          | Ok _ => on_error_calls s
          end).
Proof.
  destruct (trim_total (encoder s)
              (history s ++ [Turn "user" (preprocessor s input)])
              (tokens_available s - max_output_length s)) as (T & HT & _ & _).
  exists T. split; [done|]. cbn zeta.
  assert (forall create,
             __call__ create input s
             = api_answer_wrapper create (set_history T s)) as Hcall.
  { intros create. unfold __call__, get_trimmed_history. cbn. by rewrite HT. }
  split.
  - intros create create' Heq. rewrite !Hcall.
    unfold api_answer_wrapper, call_raw_api. cbn. by rewrite Heq.
  - intros create. rewrite Hcall. unfold api_answer_wrapper, call_raw_api. cbn.
    destruct (create _) as [[f|u|c|x]|e]; cbn; [done | done | | done |].
    + destruct (process_response_invariants c (set_history T s))
        as (_ & Hcalls & _).
      by destruct (process_response c (set_history T s)) as [[?|?] ?].
    + by destruct (raise_on_error s), (stream s).
Qed.

(** X15. After any exchange, [reset] gives a session with empty history and
    empty accumulator and the configuration the session had before the
    exchange. *)
Theorem reset_after_exchange create input s :
  history (reset (after_exchange create input s)) = [] /\
  _answer (reset (after_exchange create input s)) = "" /\
  same_config s (reset (after_exchange create input s)).
Proof.
  destruct (after_exchange_invariants create input s) as (Hcfg & _).
  split_and!; [done | done |].
  eapply same_config_trans; [exact Hcfg|]. by repeat split.
Qed.

(** ** Further properties of the error iterator *)

Lemma starts_with_append w x y :
  starts_with w x = true -> starts_with w (x +:+ y) = true.
Proof.
  revert x. induction w as [|a w IH]; intros x; [done|].
  destruct x as [|b x]; [done|].
  change (String b x +:+ y) with (String b (x +:+ y)). cbn [starts_with].
  destruct (Ascii.eqb a b); [apply IH | done].
Qed.

Lemma white_space_nonempty : Forall (fun w => w <> "") white_space.
Proof. vm_compute. repeat constructor; discriminate. Qed.

Lemma space_len_0 s :
  space_len s = 0%nat <->
  Forall (fun w => starts_with w s <> true) white_space.
Proof.
  unfold space_len.
  destruct (list_find _ white_space) as [[i w]|] eqn:Hfind.
  - apply list_find_Some in Hfind as (Hi & Hw & _).
    pose proof white_space_nonempty as Hne.
    rewrite Forall_lookup in Hne. specialize (Hne _ _ Hi).
    split.
    + destruct w; [done | discriminate].
    + rewrite Forall_lookup. intros Hall. by destruct (Hall _ _ Hi).
  - by apply list_find_None in Hfind.
Qed.

(** What follows a string cannot undo a white-space code point it begins
    with. *)
Lemma space_len_append x y :
  space_len (x +:+ y) = 0%nat -> space_len x = 0%nat.
Proof.
  rewrite !space_len_0. intros Hall. eapply Forall_impl; [exact Hall|].
  intros w Hw Hx. apply Hw. by apply starts_with_append.
Qed.

Lemma clear_before_snoc word c s :
  clear_before (String c s) word ->
  space_len (String c s) = 0%nat ->
  clear_before s (word +:+ String c "").
Proof.
  intros Hw Hc. induction word as [|a word IH].
  - by split.
  - destruct Hw as [Ha Hw].
    change (String a word +:+ String c "")
      with (String a (word +:+ String c "")).
    split; [|by apply IH].
    change (String a (word +:+ String c "") +:+ s)
      with (String a ((word +:+ String c "") +:+ s)).
    by rewrite append_assoc.
Qed.

Lemma clear_before_spaceless s word : clear_before s word -> spaceless word.
Proof.
  unfold spaceless. induction word as [|a word IH]; [done|].
  intros [Ha Hw]. split; [|by apply IH].
  apply (space_len_append _ s). by rewrite append_assoc.
Qed.

(** The words [str.split()] returns are non-empty and hold no white space. *)
Lemma split_go_words s skip word :
  (skip = 0%nat -> clear_before s word) ->
  (skip <> 0%nat -> word = "") ->
  Forall (fun w => w <> "" /\ spaceless w) (split_go skip word s).
Proof.
  revert skip word. induction s as [|c s IH]; intros skip word Hclear Hskip;
    cbn [split_go].
  - destruct (decide (word = "")) as [|Hne]; [constructor|].
    repeat constructor; [done|].
    destruct skip; [|by destruct Hne; apply Hskip].
    by eapply clear_before_spaceless, Hclear.
  - destruct skip as [|k].
    + specialize (Hclear eq_refl).
      destruct (space_len (String c s)) as [|k] eqn:Hc.
      * apply IH; [|done]. intros _. by apply clear_before_snoc.
      * assert (forall k', Forall (fun w => w <> "" /\ spaceless w)
                                  (split_go k' "" s)) as Hrest
          by (intros k'; by apply IH).
        destruct (decide (word = "")); [done|].
        constructor; [|done]. split; [done|].
        by eapply clear_before_spaceless.
    + rewrite (Hskip ltac:(done)). by apply IH.
Qed.

(** A white-space code point in front of a string starts no word. *)
Lemma split_go_space w rest :
  w ∈ white_space -> split_go 0 "" (w +:+ rest) = split_go 0 "" rest.
Proof.
  intros Hw. unfold white_space in Hw. cbn [fmap list_fmap] in Hw.
  repeat (apply elem_of_cons in Hw as [-> | Hw]; [reflexivity|]).
  by apply elem_of_nil in Hw.
Qed.

(** X16. Every fragment of the error iterator is a non-empty word that
    holds no white-space code point (ASCII or not), followed by one space; a
    message made of white-space code points only (or the empty message)
    gives no fragment at all. *)
Theorem error_iterator_fragments msg :
  Forall (fun f => exists w, f = w +:+ " " /\ w <> "" /\ spaceless w)
         (SimpleStringIterator msg) /\
  (forall ws, Forall (fun w => w ∈ white_space) ws ->
              SimpleStringIterator (concat_all ws) = []).
Proof.
  unfold SimpleStringIterator, split. split.
  - apply Forall_fmap.
    eapply Forall_impl; [by apply split_go_words|].
    intros w [Hne Hw]. by exists w.
  - intros ws Hws. induction Hws as [|w ws Hw _ IH]; [done|].
    by rewrite concat_all_cons, split_go_space.
Qed.

(** X17. Without raise-on-error and with streaming, a failed call returns an
    iterator that starts with the words [OpenAI internal error.] when the
    service raised an [OpenAIError], and with [Internal error.] for any other
    exception; the words of the exception's message follow. *)
Theorem degraded_iterator_words create input s e :
  stream s = true ->
  raise_on_error s = false ->
  (forall req, create req = Raise e) ->
  (__call__ create input s).1
  = Ok (RSimpleStringIterator
          ((if decide (exn_cls e = OpenAIError)
            then ["OpenAI "; "internal "; "error. "]
            else ["Internal "; "error. "])
           ++ SimpleStringIterator (exn_msg e))).
Proof.
  intros Hs Hr Hc.
  destruct (call_dispatch create input s) as (T & _ & ->).
  unfold api_answer_wrapper, call_raw_api. rewrite Hc. cbn.
  rewrite Hr, Hs. cbn. by destruct (decide (exn_cls e = OpenAIError)).
Qed.

Lemma degraded_iterator_words_witness :
  stream (example_session true false) = true /\
  raise_on_error (example_session true false) = false /\
  (forall req, failing_service (Exn KeyError "no route to host") req
               = Raise (Exn KeyError "no route to host")) /\
  (__call__ (failing_service (Exn KeyError "no route to host")) "hello"
            (example_session true false)).1
  = Ok (RSimpleStringIterator
          ((if decide (exn_cls (Exn KeyError "no route to host") = OpenAIError)
            then ["OpenAI "; "internal "; "error. "]
            else ["Internal "; "error. "])
           ++ SimpleStringIterator (exn_msg (Exn KeyError "no route to host")))).
Proof.
  split; [reflexivity|]. split; [reflexivity|]. split; [reflexivity|].
  apply (degraded_iterator_words
           (failing_service (Exn KeyError "no route to host")) "hello"
           (example_session true false) (Exn KeyError "no route to host"));
    reflexivity.
Defined.

(** ** Further properties of construction *)

Lemma capacity_None m : capacity m = None <-> m ∉ models.
Proof.
  unfold capacity, models.
  destruct (list_find (fun kv => kv.1 = m) max_tokens_by_model)
    as [[i kv]|] eqn:Hfind.
  - apply list_find_Some in Hfind as (Hi & <- & _).
    split; [done|]. intros Hnot. destruct Hnot.
    apply (list_elem_of_fmap_2 fst). by eapply list_elem_of_lookup_2.
  - split; [|done]. intros _ Hin.
    apply list_elem_of_fmap in Hin as (kv & -> & Hkv).
    rewrite list_find_None, Forall_forall in Hfind. by eapply Hfind.
Qed.

(** X18. A model outside the table of four makes the constructor raise
    [KeyError], whatever the other arguments are. *)
Theorem init_unsupported_model efm sp ex m mo st pre r :
  m ∉ ["gpt-3.5-turbo"; "gpt-3.5-turbo-0301"; "gpt-4"; "gpt-4-0314"] ->
  exists msg, __init__ efm sp ex m mo st pre r = Raise (Exn KeyError msg).
Proof.
  intros Hm. apply (capacity_None m) in Hm.
  unfold __init__. rewrite Hm. by eexists.
Qed.

Lemma init_unsupported_model_witness :
  ("gpt-9000" ∉ ["gpt-3.5-turbo"; "gpt-3.5-turbo-0301"; "gpt-4"; "gpt-4-0314"]) /\
  exists msg,
    __init__ (fun _ => Some char_encode) "sys" [] "gpt-9000" 400 false
             (fun text => text) false
    = Raise (Exn KeyError msg).
Proof.
  assert ("gpt-9000" ∉ ["gpt-3.5-turbo"; "gpt-3.5-turbo-0301"; "gpt-4";
                        "gpt-4-0314"]) as Hm.
  { rewrite !not_elem_of_cons. split_and!; [discriminate..|]. apply not_elem_of_nil. }
  split; [exact Hm|].
  apply (init_unsupported_model (fun _ => Some char_encode) "sys" [] "gpt-9000"
           400 false (fun text => text) false).
  exact Hm.
Defined.

(** X19. The constructor returns a session exactly when the model is in the
    table, the reservation is at most the capacity of the model, and the
    tokenizer knows the model or, failing that, [gpt-3.5-turbo]. *)
Theorem init_succeeds_iff efm sp ex m mo st pre r :
  (exists s, __init__ efm sp ex m mo st pre r = Ok s) <->
  (exists cap, capacity m = Some cap /\ mo <= cap /\
               (is_Some (efm m) \/ is_Some (efm "gpt-3.5-turbo"))).
Proof.
  unfold __init__. destruct (capacity m) as [cap|].
  - destruct (Z.ltb_spec cap mo) as [Hlt|Hle].
    + split; [by intros [? ?]|]. intros (? & [= <-] & ? & _). lia.
    + destruct (efm m) as [enc|] eqn:Hm.
      * split; [|by eexists]. intros _. exists cap. split_and!; [done..|].
        left. by eexists.
      * destruct (efm "gpt-3.5-turbo") as [enc|] eqn:Hd.
        -- split; [|by eexists]. intros _. exists cap. split_and!; [done..|].
           right. by eexists.
        -- split; [by intros [? ?]|].
           intros (? & _ & _ & [[? ?]|[? ?]]); done.
  - split; [by intros [? ?]|]. by intros (? & ? & _).
Qed.

(** The session the constructor returns, field by field. *)
Lemma init_inv efm sp ex m mo st pre r s :
  __init__ efm sp ex m mo st pre r = Ok s ->
  exists cap enc,
    capacity m = Some cap /\ mo <= cap /\
    s = {| stream := st; model := m;
           tokens_available :=
             cap - Z.of_nat
                     (length (enc sp)
                      + length (enc (join (content <$>
                          mjoin ((fun ua : string * string =>
                                    [Turn "user" ua.1; Turn "assistant" ua.2])
                                 <$> ex)))));
           max_output_length := mo;
           system_prompt := Turn "system" sp;
           initial_examples :=
             mjoin ((fun ua : string * string =>
                       [Turn "user" ua.1; Turn "assistant" ua.2]) <$> ex);
           history := []; encoder := enc; preprocessor := pre;
           _answer := ""; raise_on_error := r; on_error_calls := 0 |}.
Proof.
  unfold __init__. destruct (capacity m) as [cap|]; [|done].
  destruct (Z.ltb_spec cap mo); [done|].
  destruct (match efm m with Some e => Some e | None => efm "gpt-3.5-turbo" end)
    as [enc|]; [|done].
  intros [= <-]. by exists cap, enc.
Qed.

(** X20. In a session the constructor returned, the examples are laid out
    as alternating user and assistant turns in the order given, and the
    budget left for the history is the capacity of the model minus the token
    count of the system prompt and of the example contents joined by
    spaces. *)
Theorem init_examples_and_budget efm sp ex m mo st pre r s :
  __init__ efm sp ex m mo st pre r = Ok s ->
  length (initial_examples s) = (2 * length ex)%nat /\
  (forall i u a,
      ex !! i = Some (u, a) ->
      initial_examples s !! (2 * i)%nat = Some (Turn "user" u) /\
      initial_examples s !! (2 * i + 1)%nat = Some (Turn "assistant" a)) /\
  system_prompt s = Turn "system" sp /\
  exists cap,
    capacity m = Some cap /\
    tokens_available s
    = cap - Z.of_nat (length (encoder s sp))
          - Z.of_nat (length (encoder s (join (content <$> initial_examples s)))).
Proof.
  intros Hinit.
  destruct (init_inv _ _ _ _ _ _ _ _ _ Hinit) as (cap & enc & Hcap & _ & ->).
  cbn [initial_examples system_prompt tokens_available encoder].
  split_and!.
  - clear Hinit. induction ex as [|[u a] ex IH]; [done|].
    rewrite fmap_cons.
    change (S (S (length (mjoin ((fun ua : string * string =>
                [Turn "user" ua.1; Turn "assistant" ua.2]) <$> ex))))
            = (2 * S (length ex))%nat).
    rewrite IH. lia.
  - clear Hinit. induction ex as [|[u0 a0] ex IH]; intros i u a Hi; [done|].
    destruct i as [|i].
    + injection Hi as -> ->. by split.
    + replace (2 * S i)%nat with (S (S (2 * i))) by lia.
      replace (S (S (2 * i)) + 1)%nat with (S (S (2 * i + 1))) by lia.
      exact (IH i u a Hi).
  - done.
  - exists cap. split; [done|]. lia.
Qed.

Lemma init_examples_and_budget_witness :
  __init__ (fun _ => Some char_encode) "sys" [("hi", "yo"); ("ab", "cd")]
           "gpt-4" 400 false (fun text => text) false
  = Ok tutored_session /\
  length (initial_examples tutored_session)
  = (2 * length [("hi", "yo"); ("ab", "cd")])%nat /\
  (forall i u a,
      [("hi", "yo"); ("ab", "cd")] !! i = Some (u, a) ->
      initial_examples tutored_session !! (2 * i)%nat = Some (Turn "user" u) /\
      initial_examples tutored_session !! (2 * i + 1)%nat
      = Some (Turn "assistant" a)) /\
  system_prompt tutored_session = Turn "system" "sys" /\
  exists cap,
    capacity "gpt-4" = Some cap /\
    tokens_available tutored_session
    = cap - Z.of_nat (length (encoder tutored_session "sys"))
          - Z.of_nat (length (encoder tutored_session
                                (join (content <$> initial_examples tutored_session)))).
Proof.
  split; [reflexivity|].
  apply (init_examples_and_budget (fun _ => Some char_encode) "sys"
           [("hi", "yo"); ("ab", "cd")] "gpt-4" 400 false (fun text => text)
           false tutored_session).
  reflexivity.
Defined.

(** X21. For a session the constructor returned, at any later time (same
    configuration), a non-empty trimmed history is within budget: the token
    counts of the system prompt, of the joined example contents and of the
    turns of the trimmed history, plus the reservation for the output, do
    not exceed the capacity of the model. *)
Theorem trimmed_history_within_capacity
    efm sp ex m mo st pre r s0 s cap T :
  __init__ efm sp ex m mo st pre r = Ok s0 ->
  same_config s0 s ->
  capacity m = Some cap ->
  get_trimmed_history s = Ok T ->
  T = [] \/
  Z.of_nat (length (encoder s0 sp))
  + Z.of_nat (length (encoder s0 (join (content <$> initial_examples s0))))
  + Z.of_nat (new_length (encoder s0) T) + mo <= cap.
Proof.
  intros Hinit Hcfg Hcap HT.
  destruct (init_inv _ _ _ _ _ _ _ _ _ Hinit) as (cap' & enc & Hcap' & _ & ->).
  assert (cap' = cap) as -> by congruence.
  destruct Hcfg as (_ & _ & Hta & Hmo & _ & _ & Henc & _). cbn in Hta, Hmo, Henc.
  unfold get_trimmed_history in HT.
  destruct (trim_total (encoder s) (history s)
              (tokens_available s - max_output_length s))
    as (T' & HT' & _ & Hfit).
  rewrite HT' in HT. injection HT as ->.
  destruct T as [|t T]; [by left|]. right.
  specialize (Hfit ltac:(done)). rewrite Hta, Hmo, Henc in Hfit.
  cbn [encoder initial_examples]. lia.
Qed.

Lemma trimmed_history_within_capacity_witness :
  __init__ (fun _ => Some char_encode) "sys" [("hi", "yo"); ("ab", "cd")]
           "gpt-4" 400 false (fun text => text) false
  = Ok tutored_session /\
  same_config tutored_session
              (set_history [Turn "user" "hello"] tutored_session) /\
  capacity "gpt-4" = Some 8192 /\
  get_trimmed_history (set_history [Turn "user" "hello"] tutored_session)
  = Ok [Turn "user" "hello"] /\
  ([Turn "user" "hello"] = [] \/
   Z.of_nat (length (encoder tutored_session "sys"))
   + Z.of_nat (length (encoder tutored_session
                         (join (content <$> initial_examples tutored_session))))
   + Z.of_nat (new_length (encoder tutored_session) [Turn "user" "hello"])
   + 400 <= 8192).
Proof.
  split; [reflexivity|]. split; [by repeat split|].
  split; [reflexivity|]. split; [reflexivity|].
  apply (trimmed_history_within_capacity (fun _ => Some char_encode) "sys"
           [("hi", "yo"); ("ab", "cd")] "gpt-4" 400 false (fun text => text)
           false tutored_session
           (set_history [Turn "user" "hello"] tutored_session) 8192
           [Turn "user" "hello"]);
    [reflexivity | by repeat split | reflexivity | reflexivity].
Defined.
